(** * GreedyLife: Conway's Game of Life with resource seeking

    A shallow embedding of [greedyLife2.py] (the simulation core:
    [count_neighbors], [resource_in_proximity], [check_resource_surrounded],
    [spawn_new_resources], [create_grid], [update_grid]) and the proofs of
    its per-generation transition properties.

    The numpy array of shape (GRID_SIZE, GRID_SIZE) and dtype int is a list
    of rows of integers; Python's module-level random source is an explicit
    stream of draws threaded through the functions that call
    [random.random()]. *)

From Stdlib Require Import ZArith QArith List Lia Bool.
From stdpp Require Import base list.
Import ListNotations.

#[local] Open Scope Z_scope.

(** ** Parameters and cell states *)

Definition GRID_SIZE : Z := 100.

Definition DEAD : Z := 0.
Definition ALIVE : Z := 1.
Definition RESOURCE : Z := 2.

(** The float literals of the source, as the exact rationals the doubles
    denote ([0.0001], [0.10] and [0.001] are not exactly representable). *)
Definition RESOURCE_SPAWN_CHANCE : Q := 7378697629483821 # 73786976294838206464.
Definition ALIVE_SEED_CHANCE : Q := 3602879701896397 # 36028797018963968.
Definition RESOURCE_SEED_CHANCE : Q := 1152921504606847 # 1152921504606846976.

(** ** The grid *)

Abbreviation grid := (list (list Z)).

(** The shape numpy fixes at allocation: GRID_SIZE rows of GRID_SIZE cells. *)
Definition shape_ok (g : grid) : Prop :=
  length g = Z.to_nat GRID_SIZE /\
  Forall (fun row : list Z => length row = Z.to_nat GRID_SIZE) g.

(** [0 <= nx < GRID_SIZE and 0 <= ny < GRID_SIZE] *)
Definition in_bounds (nx ny : Z) : bool :=
  (0 <=? nx) && (nx <? GRID_SIZE) && (0 <=? ny) && (ny <? GRID_SIZE).

(** [grid[x, y]].  Every read of the source is either inside the
    [range(GRID_SIZE)] loops or behind the [in_bounds] test, so the value
    given here outside the array is never looked at. *)
Definition grid_get (g : grid) (x y : Z) : Z :=
  match g !! Z.to_nat x with
  | Some row => match row !! Z.to_nat y with Some v => v | None => DEAD end
  | None => DEAD
  end.

(** [grid[x, y] = v].  Every write of the source is in bounds as well. *)
Definition grid_set (g : grid) (x y v : Z) : grid :=
  match g !! Z.to_nat x with
  | Some row => <[Z.to_nat x := <[Z.to_nat y := v]> row]> g
  | None => g
  end.

(** [np.zeros((GRID_SIZE, GRID_SIZE), dtype=int)] *)
Definition np_zeros : grid :=
  replicate (Z.to_nat GRID_SIZE) (replicate (Z.to_nat GRID_SIZE) 0).

(** ** Loops *)

(** Python's [range(lo, hi)]. *)
Definition range (lo hi : Z) : list Z :=
  map (fun i => lo + Z.of_nat i) (seq 0 (Z.to_nat (hi - lo))).

(** [for a in l: body], the loop state passed along. *)
Definition for_each {A S : Type} (l : list A) (body : A -> S -> S) (s : S) : S :=
  fold_left (fun s a => body a s) l s.

(** A loop whose body may [return] a value: the first one returned. *)
Fixpoint first_some {A B : Type} (f : A -> option B) (l : list A) : option B :=
  match l with
  | [] => None
  | a :: l' => match f a with Some b => Some b | None => first_some f l' end
  end.

(** All cells in the order of
    [for x in range(GRID_SIZE): for y in range(GRID_SIZE)]. *)
Definition coords : list (Z * Z) :=
  flat_map (fun x => map (fun y => (x, y)) (range 0 GRID_SIZE)) (range 0 GRID_SIZE).

(** ** Neighbourhood functions *)

Definition count_neighbors (x y : Z) (g : grid) : Z :=
  for_each [-1; 0; 1] (fun dx total =>
    for_each [-1; 0; 1] (fun dy total =>
      if (dx =? 0) && (dy =? 0) then total
      else
        let nx := x + dx in
        let ny := y + dy in
        if in_bounds nx ny then
          if grid_get g nx ny =? ALIVE then total + 1 else total
        else total) total) 0.

Definition resource_in_proximity (x y : Z) (g : grid) (proximity_range : Z)
  : option (Z * Z) :=
  first_some (fun dx =>
    first_some (fun dy =>
      let nx := x + dx in
      let ny := y + dy in
      if in_bounds nx ny then
        if grid_get g nx ny =? RESOURCE then Some (nx, ny) else None
      else None)
      (range (- proximity_range) (proximity_range + 1)))
    (range (- proximity_range) (proximity_range + 1)).

Definition check_resource_surrounded (x y : Z) (g : grid) : bool :=
  forallb (fun dx =>
    forallb (fun dy =>
      if (dx =? 0) && (dy =? 0) then true
      else
        let nx := x + dx in
        let ny := y + dy in
        if in_bounds nx ny then
          if negb (grid_get g nx ny =? ALIVE) && negb (grid_get g nx ny =? RESOURCE)
          then false else true
        else true)
      [-1; 0; 1])
    [-1; 0; 1].

(** ** The random source

    [random.random()] reads the next value of a stream of draws in [0, 1);
    the state is the number of draws taken so far. *)

Definition Qltb (a b : Q) : bool :=
  match (a ?= b)%Q with Lt => true | _ => false end.

Section RandomSource.

Variable rnd : nat -> Q.

Definition Rand (A : Type) : Type := nat -> A * nat.

Definition ret {A : Type} (a : A) : Rand A := fun n => (a, n).

Definition bind {A B : Type} (m : Rand A) (k : A -> Rand B) : Rand B :=
  fun n => let (a, n') := m n in k a n'.

Definition random_random : Rand Q := fun n => (rnd n, S n).

Notation "'let*' x ':=' m 'in' k" := (bind m (fun x => k))
  (at level 10, x name, m at level 100, k at level 200).

Fixpoint for_each_m {A S : Type} (l : list A) (body : A -> S -> Rand S) (s : S)
  : Rand S :=
  match l with
  | [] => ret s
  | a :: l' => let* s' := body a s in for_each_m l' body s'
  end.

(** The body of the spawning loop at one cell: the draw is taken only
    when the cell is DEAD ([and] short-circuits). *)
Definition spawn_cell (x y : Z) (g : grid) : Rand grid :=
  if grid_get g x y =? DEAD then
    let* u := random_random in
    if Qltb u RESOURCE_SPAWN_CHANCE then ret (grid_set g x y RESOURCE) else ret g
  else ret g.

Definition spawn_new_resources (g : grid) : Rand grid :=
  for_each_m (range 0 GRID_SIZE) (fun x g =>
    for_each_m (range 0 GRID_SIZE) (fun y g => spawn_cell x y g) g) g.

(** The body of the seeding loop at one cell: the second draw is taken
    only when the first one fails ([elif]). *)
Definition seed_cell (x y : Z) (g : grid) : Rand grid :=
  let* u := random_random in
  if Qltb u ALIVE_SEED_CHANCE then ret (grid_set g x y ALIVE)
  else
    let* u' := random_random in
    if Qltb u' RESOURCE_SEED_CHANCE then ret (grid_set g x y RESOURCE) else ret g.

Definition create_grid : Rand grid :=
  for_each_m (range 0 GRID_SIZE) (fun x g =>
    for_each_m (range 0 GRID_SIZE) (fun y g => seed_cell x y g) g) np_zeros.

End RandomSource.

(** ** The transition *)

(** First loop of [update_grid], at one cell: reads [g], writes [new_grid]. *)
Definition remove_cell (g : grid) (x y : Z) (new_grid : grid) : grid :=
  if (grid_get g x y =? RESOURCE) && check_resource_surrounded x y g
  then grid_set new_grid x y DEAD
  else new_grid.

(** Second loop of [update_grid], at one cell: reads [g], writes [new_grid].
    [if resource_pos:] holds for every position returned, a pair never being
    falsy, and [np.sign] of an integer is its sign. *)
Definition update_cell (g : grid) (x y : Z) (new_grid : grid) : grid :=
  if grid_get g x y =? ALIVE then
    let resource_pos := resource_in_proximity x y g 3 in
    let alive_neighbors := count_neighbors x y g in
    match resource_pos with
    | Some (rx, ry) =>
        let dx := Z.sgn (rx - x) in
        let dy := Z.sgn (ry - y) in
        let new_x := x + dx in
        let new_y := y + dy in
        if in_bounds new_x new_y && (grid_get g new_x new_y =? DEAD) then
          let new_grid := grid_set new_grid new_x new_y ALIVE in
          let new_grid := grid_set new_grid x y DEAD in
          if (new_x =? rx) && (new_y =? ry)
          then grid_set new_grid new_x new_y ALIVE
          else new_grid
        else new_grid
    | None =>
        if (alive_neighbors <? 2) || (alive_neighbors >? 3)
        then grid_set new_grid x y DEAD
        else if alive_neighbors =? 3
             then grid_set new_grid x y ALIVE
             else new_grid
    end
  else if grid_get g x y =? DEAD then
    let alive_neighbors := count_neighbors x y g in
    if alive_neighbors =? 3 then grid_set new_grid x y ALIVE else new_grid
  else new_grid.

(** The two deterministic loops of [update_grid]: [new_grid] starts as a copy
    of [g], which is only read. *)
Definition update_cells (g : grid) : grid :=
  let new_grid := g in
  let new_grid :=
    for_each (range 0 GRID_SIZE) (fun x new_grid =>
      for_each (range 0 GRID_SIZE) (fun y new_grid => remove_cell g x y new_grid)
        new_grid) new_grid in
  for_each (range 0 GRID_SIZE) (fun x new_grid =>
    for_each (range 0 GRID_SIZE) (fun y new_grid => update_cell g x y new_grid)
      new_grid) new_grid.

Definition update_grid (rnd : nat -> Q) (g : grid) : Rand grid :=
  spawn_new_resources rnd (update_cells g).

(** ** Vocabulary of the statements *)

(** The eight cells sharing an edge or a corner with [(x, y)]. *)
Definition moore (x y : Z) : list (Z * Z) :=
  [(x - 1, y - 1); (x - 1, y); (x - 1, y + 1);
   (x, y - 1); (x, y + 1);
   (x + 1, y - 1); (x + 1, y); (x + 1, y + 1)].

(** [p] is inside the array and holds [v]. *)
Definition holds (g : grid) (v : Z) (p : Z * Z) : bool :=
  in_bounds p.1 p.2 && (grid_get g p.1 p.2 =? v).

(** Order of the scan of [resource_in_proximity]: row offset first. *)
Definition lex_lt (a b : Z * Z) : Prop :=
  a.1 < b.1 \/ (a.1 = b.1 /\ a.2 < b.2).

(** The offset [d] is within the square of radius [r]. *)
Definition in_reach (r : Z) (d : Z * Z) : Prop :=
  - r <= d.1 <= r /\ - r <= d.2 <= r.

(** The cell at offset [d] from [(x, y)] is a resource inside the array, and
    no offset of the square before [d] in scan order is one. *)
Definition first_resource_at (g : grid) (x y r : Z) (d : Z * Z) : Prop :=
  in_reach r d /\
  holds g RESOURCE (x + d.1, y + d.2) = true /\
  forall d', in_reach r d' -> lex_lt d' d ->
    holds g RESOURCE (x + d'.1, y + d'.2) = false.

Definition valid_state (v : Z) : Prop := v = DEAD \/ v = ALIVE \/ v = RESOURCE.

Definition cells_valid (g : grid) : Prop := Forall (Forall valid_state) g.

(** Where the live cell at [(x, y)] steps to, when it does. *)
Definition move_target (g : grid) (x y : Z) : option (Z * Z) :=
  if grid_get g x y =? ALIVE then
    match resource_in_proximity x y g 3 with
    | Some (rx, ry) =>
        let new_x := x + Z.sgn (rx - x) in
        let new_y := y + Z.sgn (ry - y) in
        if in_bounds new_x new_y && (grid_get g new_x new_y =? DEAD)
        then Some (new_x, new_y) else None
    | None => None
    end
  else None.

(** *** The writes of the two deterministic loops *)

Definition write : Type := (Z * Z) * Z.

Definition apply_writes (ws : list write) (g : grid) : grid :=
  fold_left (fun g (w : write) => grid_set g w.1.1 w.1.2 w.2) ws g.

Definition remove_writes (g : grid) (q : Z * Z) : list write :=
  if (grid_get g q.1 q.2 =? RESOURCE) && check_resource_surrounded q.1 q.2 g
  then [(q, DEAD)] else [].

Definition update_writes (g : grid) (q : Z * Z) : list write :=
  let x := q.1 in
  let y := q.2 in
  if grid_get g x y =? ALIVE then
    match resource_in_proximity x y g 3 with
    | Some (rx, ry) =>
        let new_x := x + Z.sgn (rx - x) in
        let new_y := y + Z.sgn (ry - y) in
        if in_bounds new_x new_y && (grid_get g new_x new_y =? DEAD) then
          [((new_x, new_y), ALIVE); ((x, y), DEAD)] ++
          (if (new_x =? rx) && (new_y =? ry) then [((new_x, new_y), ALIVE)] else [])
        else []
    | None =>
        if (count_neighbors x y g <? 2) || (count_neighbors x y g >? 3)
        then [((x, y), DEAD)]
        else if count_neighbors x y g =? 3 then [((x, y), ALIVE)] else []
    end
  else if grid_get g x y =? DEAD then
    if count_neighbors x y g =? 3 then [((x, y), ALIVE)] else []
  else [].

(** Everything the first two loops write, in order. *)
Definition write_log (g : grid) : list write :=
  flat_map (remove_writes g) coords ++ flat_map (update_writes g) coords.

(** What one cell may write in the second loop. *)
Inductive cell_write (g : grid) (q : Z * Z) : write -> Prop :=
  | cw_arrive t :
      move_target g q.1 q.2 = Some t -> cell_write g q (t, ALIVE)
  | cw_leave t :
      move_target g q.1 q.2 = Some t -> cell_write g q (q, DEAD)
  | cw_die :
      grid_get g q.1 q.2 = ALIVE ->
      resource_in_proximity q.1 q.2 g 3 = None ->
      count_neighbors q.1 q.2 g < 2 \/ count_neighbors q.1 q.2 g > 3 ->
      cell_write g q (q, DEAD)
  | cw_survive :
      grid_get g q.1 q.2 = ALIVE ->
      resource_in_proximity q.1 q.2 g 3 = None ->
      count_neighbors q.1 q.2 g = 3 ->
      cell_write g q (q, ALIVE)
  | cw_birth :
      grid_get g q.1 q.2 = DEAD ->
      count_neighbors q.1 q.2 g = 3 ->
      cell_write g q (q, ALIVE).

(** *** The draws of the spawning loop *)

(** Number of DEAD cells of [g] met in [l] before [p]. *)
Fixpoint dead_before (g : grid) (l : list (Z * Z)) (p : Z * Z) : nat :=
  match l with
  | [] => 0%nat
  | q :: l' =>
      if decide (q = p) then 0%nat
      else if grid_get g q.1 q.2 =? DEAD then S (dead_before g l' p)
           else dead_before g l' p
  end.

(** The rank of the draw the spawning loop takes at the DEAD cell [(x, y)]. *)
Definition draw_index (g : grid) (x y : Z) : nat := dead_before g coords (x, y).

Definition count_dead (g : grid) (l : list (Z * Z)) : nat :=
  length (List.filter (fun q : Z * Z => grid_get g q.1 q.2 =? DEAD) l).

(** What a DEAD cell becomes on the draw of rank [i]. *)
Definition spawn_outcome (rnd : nat -> Q) (i : nat) : Z :=
  if Qltb (rnd i) RESOURCE_SPAWN_CHANCE then RESOURCE else DEAD.

(** The spawning loop as one loop over [coords]. *)
Definition spawn_list (rnd : nat -> Q) (l : list (Z * Z)) (g : grid) : Rand grid :=
  for_each_m l (fun (q : Z * Z) g => spawn_cell rnd q.1 q.2 g) g.

Definition seed_list (rnd : nat -> Q) (l : list (Z * Z)) (g : grid) : Rand grid :=
  for_each_m l (fun (q : Z * Z) g => seed_cell rnd q.1 q.2 g) g.

(** *** Grids and random sources of the examples *)

(** Every draw below any positive threshold, and every draw above them. *)
Definition draws_low : nat -> Q := fun _ => (1 # 1048576)%Q.
Definition draws_high : nat -> Q := fun _ => (1 # 2)%Q.

Definition put (cells : list write) : grid := apply_writes cells np_zeros.

(** A live cell at (5,5) with a sole resource at (5,8). *)
Definition G_move : grid := put [((5, 5), ALIVE); ((5, 8), RESOURCE)].

(** The same, the step towards the resource taken by another live cell. *)
Definition G_blocked : grid :=
  put [((5, 5), ALIVE); ((5, 6), ALIVE); ((5, 8), RESOURCE)].

(** Resources at offsets (-2,-2) and (1,1) from (5,5). *)
Definition G_tie : grid := put [((3, 3), RESOURCE); ((6, 6), RESOURCE)].

(** A resource at (5,5), its eight neighbours alive. *)
Definition G_enclosed : grid :=
  put (((5, 5), RESOURCE) :: map (fun q => (q, ALIVE)) (moore 5 5)).

(** The same with the neighbour (4,4) dead. *)
Definition G_open : grid :=
  put (((5, 5), RESOURCE) :: map (fun q => (q, ALIVE)) (tail (moore 5 5))).

(** Three live cells in a row, far from any resource. *)
Definition G_blinker : grid := put [((5, 4), ALIVE); ((5, 5), ALIVE); ((5, 6), ALIVE)].

(** A live cell on its own. *)
Definition G_lonely : grid := put [((5, 5), ALIVE)].

(** The draws of [draws_low], written with another denominator. *)
Definition draws_low' : nat -> Q := fun _ => (2 # 2097152)%Q.

(** *** Deciding the hypotheses on a given grid *)

#[local] Instance valid_state_dec (v : Z) : Decision (valid_state v).
Proof. unfold valid_state. apply _. Defined.

#[local] Instance cells_valid_dec (g : grid) : Decision (cells_valid g).
Proof. unfold cells_valid. apply _. Defined.

#[local] Instance shape_ok_dec (g : grid) : Decision (shape_ok g).
Proof. unfold shape_ok. apply _. Defined.

(** ** Drawing and the main loop *)

Definition WIDTH : Z := 700.
Definition HEIGHT : Z := 700.

(** [WIDTH // GRID_SIZE] *)
Definition INITIAL_CELL_SIZE : Z := WIDTH / GRID_SIZE.

Definition ALIVE_COLOR : Z * Z * Z := (255, 255, 255).
Definition DEAD_COLOR : Z * Z * Z := (0, 0, 0).
Definition RESOURCE_COLOR : Z * Z * Z := (0, 255, 0).

(** [pygame.Rect(left, top, width, height)] *)
Record Rect : Type := mkRect { r_left : Z; r_top : Z; r_width : Z; r_height : Z }.

(** The surface drawn on is the list of the calls [pygame.draw.rect(screen,
    color, rect)] made on it, the latest last. *)
Definition draw_call : Type := (Z * Z * Z) * Rect.

(** The body of the loop of [draw_grid] at one cell. *)
Definition draw_cell (g : grid) (cell_size : Z) (x y : Z) (screen : list draw_call)
  : list draw_call :=
  let color :=
    if grid_get g x y =? ALIVE then ALIVE_COLOR
    else if grid_get g x y =? RESOURCE then RESOURCE_COLOR
    else DEAD_COLOR in
  let rect := mkRect (y * cell_size) (x * cell_size) cell_size cell_size in
  screen ++ [(color, rect)].

Definition draw_grid (screen : list draw_call) (g : grid) (cell_size : Z)
  : list draw_call :=
  for_each (range 0 GRID_SIZE) (fun x screen =>
    for_each (range 0 GRID_SIZE) (fun y screen => draw_cell g cell_size x y screen)
      screen) screen.

(** The loop of [main] from the grid [g], as the grids handed to [draw_grid]
    frame after frame.  [events] holds, for each frame observed, the events
    [pygame.event.get()] returns in it, each as the outcome of the test
    [event.type == pygame.QUIT]; the loop is followed as far as [events]
    goes. *)
Fixpoint main_loop (rnd : nat -> Q) (events : list (list bool)) (g : grid) (n : nat)
  : list grid :=
  match events with
  | [] => []
  | frame :: events' =>
      let (g', n') := update_grid rnd g n in
      g :: (if existsb (fun quit : bool => quit) frame then []
            else main_loop rnd events' g' n')
  end.

(** [main], the random source at rank [n] when it starts. *)
Definition main (rnd : nat -> Q) (events : list (list bool)) (n : nat) : list grid :=
  let (g, n') := create_grid rnd n in main_loop rnd events g n'.

(** ** Vocabulary of the further statements *)

(** The pixels a filled rectangle covers. *)
Definition rect_covers (r : Rect) (px py : Z) : bool :=
  (r_left r <=? px) && (px <? r_left r + r_width r) &&
  (r_top r <=? py) && (py <? r_top r + r_height r).

(** Chebyshev distance. *)
Definition cheb (a b : Z * Z) : Z := Z.max (Z.abs (a.1 - b.1)) (Z.abs (a.2 - b.2)).

(** The two deterministic loops, each over a list of cells of its own, the
    second loop first when [swap] is set. *)
Definition sweep (swap : bool) (l1 l2 : list (Z * Z)) (g : grid) : grid :=
  let removal (new_grid : grid) :=
    fold_left (fun s (q : Z * Z) => remove_cell g q.1 q.2 s) l1 new_grid in
  let update (new_grid : grid) :=
    fold_left (fun s (q : Z * Z) => update_cell g q.1 q.2 s) l2 new_grid in
  if swap then removal (update g) else update (removal g).

(** What the seeding loop makes of a cell whose first draw has rank [i], and
    the rank of the first draw of the next cell. *)
Definition seed_state (rnd : nat -> Q) (i : nat) : Z :=
  if Qltb (rnd i) ALIVE_SEED_CHANCE then ALIVE
  else if Qltb (rnd (S i)) RESOURCE_SEED_CHANCE then RESOURCE
  else DEAD.

Definition seed_next (rnd : nat -> Q) (i : nat) : nat :=
  if Qltb (rnd i) ALIVE_SEED_CHANCE then S i else S (S i).

(** The rank of the first draw taken at [p], the loop over [l] starting at
    rank [n]. *)
Fixpoint seed_index (rnd : nat -> Q) (l : list (Z * Z)) (n : nat) (p : Z * Z) : nat :=
  match l with
  | [] => n
  | q :: l' => if decide (q = p) then n else seed_index rnd l' (seed_next rnd n) p
  end.

(** A grid holding a value that is none of the three states. *)
Definition G_odd : grid := put [((5, 5), 7); ((5, 6), ALIVE)].

(** A live cell next to the resource it senses. *)
Definition G_adjacent : grid := put [((5, 5), ALIVE); ((6, 6), RESOURCE)].

(** * Proofs *)

(** ** Arrays *)

Lemma in_bounds_spec nx ny :
  in_bounds nx ny = true <-> (0 <= nx < GRID_SIZE /\ 0 <= ny < GRID_SIZE).
Proof. unfold in_bounds. rewrite !andb_true_iff, !Z.leb_le, !Z.ltb_lt. lia. Qed.

Lemma shape_ok_row g x :
  shape_ok g -> 0 <= x < GRID_SIZE ->
  exists row, g !! Z.to_nat x = Some row /\ length row = Z.to_nat GRID_SIZE.
Proof.
  intros [Hlen Hrows] Hx.
  destruct (lookup_lt_is_Some_2 g (Z.to_nat x)) as [row Hrow]; [lia|].
  exists row. split; [done|].
  rewrite Forall_forall in Hrows. apply Hrows.
  eapply list_elem_of_lookup_2; eauto.
Qed.

Lemma grid_get_set_eq g x y v :
  shape_ok g -> in_bounds x y = true -> grid_get (grid_set g x y v) x y = v.
Proof.
  intros Hs Hb. apply in_bounds_spec in Hb as [Hx Hy].
  destruct (shape_ok_row g x Hs Hx) as (row & Hrow & Hlen).
  unfold grid_get, grid_set. rewrite Hrow.
  rewrite list_lookup_insert_eq by (eapply lookup_lt_Some; eauto).
  rewrite list_lookup_insert_eq by lia. done.
Qed.

Lemma grid_get_set_ne g x y v x' y' :
  in_bounds x y = true -> in_bounds x' y' = true -> (x, y) <> (x', y') ->
  grid_get (grid_set g x y v) x' y' = grid_get g x' y'.
Proof.
  intros Hb Hb' Hne.
  apply in_bounds_spec in Hb as [Hx Hy]. apply in_bounds_spec in Hb' as [Hx' Hy'].
  unfold grid_get, grid_set.
  destruct (g !! Z.to_nat x) as [row|] eqn:Hrow; [|done].
  destruct (decide (x = x')) as [<-|Hxx].
  - rewrite list_lookup_insert_eq by (eapply lookup_lt_Some; eauto).
    rewrite Hrow. rewrite list_lookup_insert_ne; [done|].
    intros E. apply Hne. f_equal. lia.
  - rewrite list_lookup_insert_ne; [done|]. lia.
Qed.

(** A write changes the cell read to the value written or not at all. *)
Lemma grid_get_set_cases g x y v x' y' :
  grid_get (grid_set g x y v) x' y' = v \/
  grid_get (grid_set g x y v) x' y' = grid_get g x' y'.
Proof.
  unfold grid_get, grid_set.
  destruct (g !! Z.to_nat x) as [row|] eqn:Hrow; [|by right].
  destruct (decide (Z.to_nat x = Z.to_nat x')) as [E|E].
  - rewrite <- E, list_lookup_insert_eq by (eapply lookup_lt_Some; eauto).
    rewrite Hrow.
    destruct (decide (Z.to_nat y = Z.to_nat y')) as [E'|E'].
    + rewrite <- E'. destruct (decide (Z.to_nat y < length row)%nat).
      * left. by rewrite list_lookup_insert_eq.
      * right. by rewrite list_insert_ge by lia.
    + right. by rewrite list_lookup_insert_ne.
  - right. by rewrite list_lookup_insert_ne.
Qed.

Lemma shape_ok_set g x y v : shape_ok g -> shape_ok (grid_set g x y v).
Proof.
  intros [Hlen Hrows]. unfold grid_set.
  destruct (g !! Z.to_nat x) as [row|] eqn:Hrow; [|done].
  split.
  - by rewrite length_insert.
  - apply Forall_insert; [done|]. rewrite length_insert.
    rewrite Forall_forall in Hrows. apply Hrows.
    eapply list_elem_of_lookup_2; eauto.
Qed.

Lemma cells_valid_set g x y v :
  valid_state v -> cells_valid g -> cells_valid (grid_set g x y v).
Proof.
  intros Hv Hg. unfold grid_set, cells_valid in *.
  destruct (g !! Z.to_nat x) as [row|] eqn:Hrow; [|done].
  apply Forall_insert; [done|]. apply Forall_insert; [|done].
  rewrite Forall_forall in Hg. apply Hg.
  eapply list_elem_of_lookup_2; eauto.
Qed.

Lemma cells_valid_get g x y :
  cells_valid g -> in_bounds x y = true -> shape_ok g -> valid_state (grid_get g x y).
Proof.
  intros Hg Hb Hs. apply in_bounds_spec in Hb as [Hx Hy].
  destruct (shape_ok_row g x Hs Hx) as (row & Hrow & Hlen).
  unfold grid_get. rewrite Hrow.
  destruct (lookup_lt_is_Some_2 row (Z.to_nat y)) as [v Hv]; [lia|].
  rewrite Hv. unfold cells_valid in Hg.
  rewrite Forall_forall in Hg.
  assert (Hr : Forall valid_state row).
  { apply Hg. eapply list_elem_of_lookup_2; eauto. }
  rewrite Forall_forall in Hr. apply Hr.
  eapply list_elem_of_lookup_2; eauto.
Qed.

Lemma shape_ok_zeros : shape_ok np_zeros.
Proof.
  unfold np_zeros. split.
  - by rewrite length_replicate.
  - apply Forall_replicate. by rewrite length_replicate.
Qed.

Lemma cells_valid_zeros : cells_valid np_zeros.
Proof.
  unfold np_zeros, cells_valid. apply Forall_replicate, Forall_replicate. by left.
Qed.

(** ** Loops *)

Lemma range_unfold lo hi :
  range lo hi = if lo <? hi then lo :: range (lo + 1) hi else [].
Proof.
  unfold range. destruct (Z.ltb_spec lo hi) as [H|H].
  - replace (Z.to_nat (hi - lo)) with (S (Z.to_nat (hi - (lo + 1)))) by lia.
    cbn [seq map]. f_equal; [lia|].
    rewrite <- seq_shift, map_map. apply map_ext. intros; lia.
  - replace (Z.to_nat (hi - lo)) with 0%nat by lia. done.
Qed.

Lemma in_range lo hi a : In a (range lo hi) <-> lo <= a < hi.
Proof.
  unfold range. rewrite in_map_iff. split.
  - intros (i & <- & Hi). apply in_seq in Hi. lia.
  - intros H. exists (Z.to_nat (a - lo)). split; [lia|]. apply in_seq. lia.
Qed.

Lemma NoDup_range lo hi : NoDup (range lo hi).
Proof.
  unfold range.
  assert (Inj eq eq (fun i : nat => lo + Z.of_nat i)) by (intros i j; lia).
  apply (NoDup_fmap_2 (fun i : nat => lo + Z.of_nat i)), NoDup_seq.
Qed.

Lemma in_coords x y : In (x, y) coords <-> in_bounds x y = true.
Proof.
  unfold coords. rewrite in_flat_map, in_bounds_spec. split.
  - intros (x' & Hx & Hy). apply in_map_iff in Hy as (y' & E & Hy).
    inversion E; subst. apply in_range in Hx, Hy. lia.
  - intros [Hx Hy]. exists x. split; [apply in_range; lia|].
    apply in_map_iff. exists y. split; [done|]. apply in_range; lia.
Qed.

Lemma NoDup_pairs (l1 l2 : list Z) :
  NoDup l1 -> NoDup l2 ->
  NoDup (flat_map (fun x => map (fun y => (x, y)) l2) l1).
Proof.
  intros H1 H2. induction H1 as [|x l1 Hx H1 IH]; cbn [flat_map].
  - constructor.
  - apply NoDup_app. split; [|split; [|done]].
    + assert (Inj eq eq (fun y : Z => (x, y))) by (intros ? ? E; by inversion E).
      by apply (NoDup_fmap_2 (fun y : Z => (x, y))).
    + intros [a b] Ha Hb.
      apply list_elem_of_In, in_map_iff in Ha as (y & E & _). inversion E; subst.
      apply list_elem_of_In, in_flat_map in Hb as (x' & Hx' & Hb).
      apply in_map_iff in Hb as (y' & E' & _). inversion E'; subst.
      apply Hx. by apply list_elem_of_In.
Qed.

Lemma NoDup_coords : NoDup coords.
Proof. apply NoDup_pairs; apply NoDup_range. Qed.

(** Two nested loops are one loop over the pairs. *)
Lemma for_each_nested {S : Type} (l1 l2 : list Z) (body : Z -> Z -> S -> S) s :
  for_each l1 (fun x s => for_each l2 (fun y s => body x y s) s) s =
  fold_left (fun s (q : Z * Z) => body q.1 q.2 s)
    (flat_map (fun x => map (fun y => (x, y)) l2) l1) s.
Proof.
  unfold for_each. revert s. induction l1 as [|x l1 IH]; intros s; cbn [flat_map fold_left].
  - done.
  - rewrite fold_left_app, IH. f_equal.
    clear IH. revert s. induction l2 as [|y l2 IH2]; intros s; cbn; auto.
Qed.

Lemma for_each_m_app {A S : Type} (l l' : list A) (body : A -> S -> Rand S) s n :
  for_each_m (l ++ l') body s n =
  for_each_m l' body (for_each_m l body s n).1 (for_each_m l body s n).2.
Proof.
  revert s n. induction l as [|a l IH]; intros s n; cbn; [done|].
  unfold bind. destruct (body a s n) as [s1 n1]. apply IH.
Qed.

Lemma for_each_m_nested {S : Type} (l1 l2 : list Z) (body : Z -> Z -> S -> Rand S) s n :
  for_each_m l1 (fun x s => for_each_m l2 (fun y s => body x y s) s) s n =
  for_each_m (flat_map (fun x => map (fun y => (x, y)) l2) l1)
    (fun (q : Z * Z) s => body q.1 q.2 s) s n.
Proof.
  revert s n. induction l1 as [|x l1 IH]; intros s n; cbn [flat_map for_each_m].
  - done.
  - rewrite for_each_m_app. unfold bind at 1.
    assert (E : forall s n,
      for_each_m l2 (fun y s => body x y s) s n =
      for_each_m (map (fun y => (x, y)) l2) (fun (q : Z * Z) s => body q.1 q.2 s) s n).
    { clear. induction l2 as [|y l2 IH2]; intros s n; cbn; [done|].
      unfold bind. destruct (body x y s n). apply IH2. }
    rewrite <- E. destruct (for_each_m l2 _ s n) as [s1 n1]. apply IH.
Qed.

(** Loops whose bodies agree on every state compute the same. *)
Lemma for_each_m_ext {A S : Type} (l : list A) (body body' : A -> S -> Rand S) s n :
  (forall a s n, body a s n = body' a s n) ->
  for_each_m l body s n = for_each_m l body' s n.
Proof.
  intros E. revert s n. induction l as [|a l IH]; intros s n; cbn; [done|].
  unfold bind. rewrite E. destruct (body' a s n). apply IH.
Qed.

(** An invariant of the loop state is an invariant of the loop. *)
Lemma for_each_m_inv {A S : Type} (P : S -> Prop) (l : list A)
    (body : A -> S -> Rand S) s n :
  (forall a s n, P s -> P (body a s n).1) ->
  P s -> P (for_each_m l body s n).1.
Proof.
  intros Hb. revert s n. induction l as [|a l IH]; intros s n Hs; cbn; [done|].
  unfold bind. specialize (Hb a s n Hs). destruct (body a s n). by apply IH.
Qed.

Lemma fold_left_inv {A S : Type} (P : S -> Prop) (f : S -> A -> S) l s :
  (forall s a, P s -> P (f s a)) -> P s -> P (fold_left f l s).
Proof.
  intros Hf. revert s. induction l as [|a l IH]; intros s Hs; cbn; [done|].
  apply IH, Hf, Hs.
Qed.

(** The first value returned over a range, and what was passed over. *)
Lemma first_some_range_Some {B : Type} (f : Z -> option B) lo hi b :
  first_some f (range lo hi) = Some b ->
  exists a, lo <= a < hi /\ f a = Some b /\ forall a', lo <= a' < a -> f a' = None.
Proof.
  remember (Z.to_nat (hi - lo)) as k eqn:Hk. revert lo Hk.
  induction k as [|k IH]; intros lo Hk; rewrite range_unfold.
  - destruct (Z.ltb_spec lo hi); [lia|]. done.
  - destruct (Z.ltb_spec lo hi); [|lia]. cbn [first_some].
    destruct (f lo) as [b'|] eqn:Hlo.
    + intros [= ->]. exists lo. split; [lia|]. split; [done|]. intros; lia.
    + intros Hrest. destruct (IH (lo + 1) ltac:(lia) Hrest) as (a & Ha & Hfa & Hbefore).
      exists a. split; [lia|]. split; [done|]. intros a' Ha'.
      destruct (decide (a' = lo)) as [->|]; [done|]. apply Hbefore. lia.
Qed.

Lemma first_some_range_None {B : Type} (f : Z -> option B) lo hi :
  first_some f (range lo hi) = None <-> forall a, lo <= a < hi -> f a = None.
Proof.
  remember (Z.to_nat (hi - lo)) as k eqn:Hk. revert lo Hk.
  induction k as [|k IH]; intros lo Hk; rewrite range_unfold.
  - destruct (Z.ltb_spec lo hi); [lia|]. split; [intros; lia|done].
  - destruct (Z.ltb_spec lo hi); [|lia]. cbn [first_some]. split.
    + destruct (f lo) eqn:Hlo; [done|]. intros Hrest a Ha.
      destruct (decide (a = lo)) as [->|]; [done|].
      apply (IH (lo + 1)); [lia|done|lia].
    + intros Hall. rewrite (Hall lo) by lia. apply IH; [lia|]. intros; apply Hall; lia.
Qed.

Lemma fold_left_agree {A S : Type} (f f' : S -> A -> S) l s :
  (forall s a, f s a = f' s a) -> fold_left f l s = fold_left f' l s.
Proof.
  intros E. revert s. induction l as [|a l IH]; intros s; cbn; [done|].
  by rewrite E, IH.
Qed.

(** ** Neighbour counting *)

Lemma if_nested_and {A : Type} (a b : bool) (t u : A) :
  (if a then if b then t else u else u) = (if a && b then t else u).
Proof. by destruct a, b. Qed.

Lemma count_neighbors_filter x y g :
  count_neighbors x y g = Z.of_nat (length (List.filter (holds g ALIVE) (moore x y))).
Proof.
  unfold count_neighbors, for_each, moore, holds. cbn [fold_left List.filter fst snd].
  cbn [Z.eqb andb]. change (x - 1) with (x + -1). change (y - 1) with (y + -1).
  rewrite !Z.add_0_r, !if_nested_and.
  generalize (in_bounds (x + -1) (y + -1) && (grid_get g (x + -1) (y + -1) =? ALIVE)).
  generalize (in_bounds (x + -1) y && (grid_get g (x + -1) y =? ALIVE)).
  generalize (in_bounds (x + -1) (y + 1) && (grid_get g (x + -1) (y + 1) =? ALIVE)).
  generalize (in_bounds x (y + -1) && (grid_get g x (y + -1) =? ALIVE)).
  generalize (in_bounds x (y + 1) && (grid_get g x (y + 1) =? ALIVE)).
  generalize (in_bounds (x + 1) (y + -1) && (grid_get g (x + 1) (y + -1) =? ALIVE)).
  generalize (in_bounds (x + 1) y && (grid_get g (x + 1) y =? ALIVE)).
  generalize (in_bounds (x + 1) (y + 1) && (grid_get g (x + 1) (y + 1) =? ALIVE)).
  intros [] [] [] [] [] [] [] []; reflexivity.
Qed.

Lemma moore_irrefl x y : ~ In (x, y) (moore x y).
Proof.
  unfold moore. cbn [In]. intros H.
  repeat (destruct H as [H|H]; [inversion H; lia|]). done.
Qed.

Lemma filter_ext_in' {A : Type} (f f' : A -> bool) (l : list A) :
  (forall a, In a l -> f a = f' a) -> List.filter f l = List.filter f' l.
Proof.
  induction l as [|a l IH]; intros H; cbn; [done|].
  rewrite (H a) by (by left). rewrite IH; [done|]. intros; apply H; by right.
Qed.

(** Claim C6.  [count_neighbors x y g] is the number of the eight Moore neighbours of
    [(x, y)] that are inside the array and ALIVE: it lies between 0 and 8,
    cells outside the array are passed over, [(x, y)] is not among the cells
    counted, and the result depends on the grid through the neighbours only. *)
Theorem count_neighbors_exact (x y : Z) (g : grid) :
  count_neighbors x y g = Z.of_nat (length (List.filter (holds g ALIVE) (moore x y)))
  /\ 0 <= count_neighbors x y g <= 8
  /\ ~ In (x, y) (moore x y)
  /\ (forall q, holds g ALIVE q = true -> in_bounds q.1 q.2 = true)
  /\ (forall g' : grid,
        (forall q, In q (moore x y) -> grid_get g' q.1 q.2 = grid_get g q.1 q.2) ->
        count_neighbors x y g' = count_neighbors x y g).
Proof.
  split; [apply count_neighbors_filter|]. split; [|split; [apply moore_irrefl|split]].
  - rewrite count_neighbors_filter.
    pose proof (List.filter_length_le (holds g ALIVE) (moore x y)) as H.
    cbn [moore length] in H. lia.
  - intros q H. unfold holds in H. by apply andb_true_iff in H as [H _].
  - intros g' H. rewrite !count_neighbors_filter. do 2 f_equal.
    apply filter_ext_in'. intros q Hq. unfold holds. by rewrite H.
Qed.

(** ** The resource scan *)

Lemma holds_true g v p :
  holds g v p = true <-> in_bounds p.1 p.2 = true /\ grid_get g p.1 p.2 = v.
Proof. unfold holds. by rewrite andb_true_iff, Z.eqb_eq. Qed.

Lemma scan_cell_Some g (nx ny : Z) p :
  (if in_bounds nx ny
   then if grid_get g nx ny =? RESOURCE then Some (nx, ny) else None
   else None) = Some p ->
  p = (nx, ny) /\ holds g RESOURCE (nx, ny) = true.
Proof.
  unfold holds; cbn [fst snd].
  destruct (in_bounds nx ny); [|done].
  destruct (grid_get g nx ny =? RESOURCE); [|done]. by intros [= <-].
Qed.

Lemma scan_cell_None g (nx ny : Z) :
  (if in_bounds nx ny
   then if grid_get g nx ny =? RESOURCE then Some (nx, ny) else None
   else None) = None <->
  holds g RESOURCE (nx, ny) = false.
Proof.
  unfold holds; cbn [fst snd].
  destruct (in_bounds nx ny); [|done].
  by destruct (grid_get g nx ny =? RESOURCE).
Qed.

Lemma resource_in_proximity_Some x y g r nx ny :
  resource_in_proximity x y g r = Some (nx, ny) ->
  first_resource_at g x y r (nx - x, ny - y).
Proof.
  unfold resource_in_proximity. intros H.
  apply first_some_range_Some in H as (dx & Hdx & Hin & Hrows).
  apply first_some_range_Some in Hin as (dy & Hdy & Hcell & Hcols).
  apply scan_cell_Some in Hcell as [[= -> ->] Hres].
  unfold first_resource_at, in_reach, lex_lt. cbn [fst snd].
  replace (x + dx - x) with dx by lia. replace (y + dy - y) with dy by lia.
  split; [lia|]. split; [done|].
  intros [dx' dy'] [Hx' Hy'] Hlt. cbn [fst snd] in *.
  destruct Hlt as [Hlt|[-> Hlt]].
  - specialize (Hrows dx' ltac:(lia)).
    rewrite first_some_range_None in Hrows.
    apply scan_cell_None, Hrows. lia.
  - apply scan_cell_None, Hcols. lia.
Qed.

Lemma resource_in_proximity_None x y g r :
  resource_in_proximity x y g r = None <->
  forall d, in_reach r d -> holds g RESOURCE (x + d.1, y + d.2) = false.
Proof.
  unfold resource_in_proximity. rewrite first_some_range_None. split.
  - intros H [dx dy] [Hx Hy]. cbn [fst snd] in *.
    specialize (H dx ltac:(lia)). rewrite first_some_range_None in H.
    apply scan_cell_None, H. lia.
  - intros H dx Hdx. apply first_some_range_None. intros dy Hdy.
    apply scan_cell_None. apply (H (dx, dy)). unfold in_reach; cbn; lia.
Qed.

Lemma first_resource_at_unique g x y r d d' :
  first_resource_at g x y r d -> first_resource_at g x y r d' -> d = d'.
Proof.
  intros (Hr & Hh & Hmin) (Hr' & Hh' & Hmin').
  destruct d as [a b], d' as [a' b']. cbn [fst snd] in *.
  destruct (decide (lex_lt (a, b) (a', b'))) as [Hlt|Hnlt].
  { specialize (Hmin' (a, b) Hr Hlt). cbn [fst snd] in Hmin'. congruence. }
  destruct (decide (lex_lt (a', b') (a, b))) as [Hlt|Hnlt'].
  { specialize (Hmin (a', b') Hr' Hlt). cbn [fst snd] in Hmin. congruence. }
  unfold lex_lt in *. cbn [fst snd] in *. f_equal; lia.
Qed.

Lemma resource_in_proximity_first x y g r d :
  first_resource_at g x y r d ->
  resource_in_proximity x y g r = Some (x + d.1, y + d.2).
Proof.
  intros Hd. destruct (resource_in_proximity x y g r) as [[nx ny]|] eqn:E.
  - apply resource_in_proximity_Some in E.
    rewrite <- (first_resource_at_unique _ _ _ _ _ _ E Hd). cbn. f_equal; f_equal; lia.
  - rewrite resource_in_proximity_None in E. destruct Hd as (Hr & Hh & _).
    rewrite (E d Hr) in Hh. done.
Qed.

(** Claim C3.  [resource_in_proximity x y g r] scans the offsets of the square of radius
    [r] row offset first, column offset second, and returns the first cell
    inside the array that holds RESOURCE, or nothing when the square holds
    none: a result is the resource at the least offset in that order and the
    resource at the least offset is the result; a resource at a later offset,
    such as (1,1) after (-2,-2), is never returned. *)
Theorem resource_in_proximity_scan (x y : Z) (g : grid) (r : Z) :
  (forall nx ny,
     resource_in_proximity x y g r = Some (nx, ny) ->
     first_resource_at g x y r (nx - x, ny - y))
  /\ (forall d,
        first_resource_at g x y r d ->
        resource_in_proximity x y g r = Some (x + d.1, y + d.2))
  /\ (resource_in_proximity x y g r = None <->
      forall d, in_reach r d -> holds g RESOURCE (x + d.1, y + d.2) = false)
  /\ (forall d1 d2,
        in_reach r d1 -> holds g RESOURCE (x + d1.1, y + d1.2) = true ->
        lex_lt d1 d2 ->
        resource_in_proximity x y g r <> Some (x + d2.1, y + d2.2)).
Proof.
  split; [apply resource_in_proximity_Some|].
  split; [apply resource_in_proximity_first|].
  split; [apply resource_in_proximity_None|].
  intros d1 d2 Hr Hh Hlt E.
  apply resource_in_proximity_Some in E as (_ & _ & Hmin).
  replace (x + d2.1 - x, y + d2.2 - y) with d2 in Hmin
    by (destruct d2; cbn; f_equal; lia).
  rewrite (Hmin d1 Hr Hlt) in Hh. done.
Qed.

Lemma resource_in_proximity_scan_witness :
  resource_in_proximity 5 5 G_tie 3 = Some (3, 3)
  /\ holds G_tie RESOURCE (6, 6) = true
  /\ resource_in_proximity 5 5 G_tie 3 <> Some (5 + 1, 5 + 1)
  /\ first_resource_at G_tie 5 5 3 (3 - 5, 3 - 5).
Proof.
  split; [vm_compute; reflexivity|]. split; [vm_compute; reflexivity|].
  destruct (resource_in_proximity_scan 5 5 G_tie 3) as (Hfirst & _ & _ & Hlater).
  split.
  - apply (Hlater (-2, -2) (1, 1)).
    + unfold in_reach; cbn; lia.
    + vm_compute; reflexivity.
    + unfold lex_lt; cbn; lia.
  - apply Hfirst. vm_compute; reflexivity.
Defined.

Lemma count_neighbors_exact_witness :
  count_neighbors 5 5 G_blinker = 2
  /\ count_neighbors 5 5 (grid_set G_blinker 5 5 DEAD) = count_neighbors 5 5 G_blinker.
Proof.
  split; [vm_compute; reflexivity|].
  destruct (count_neighbors_exact 5 5 G_blinker) as (_ & _ & _ & _ & Hdep).
  apply Hdep. intros q Hq.
  cbn [moore In] in Hq. 
  repeat (destruct Hq as [<-|Hq]; [vm_compute; reflexivity|]). destruct Hq.
Defined.

(** ** The writes of the deterministic loops *)

Lemma remove_cell_writes g x y ng :
  remove_cell g x y ng = apply_writes (remove_writes g (x, y)) ng.
Proof.
  unfold remove_cell, remove_writes. cbn [fst snd].
  by destruct ((grid_get g x y =? RESOURCE) && check_resource_surrounded x y g).
Qed.

Lemma update_cell_writes g x y ng :
  update_cell g x y ng = apply_writes (update_writes g (x, y)) ng.
Proof.
  unfold update_cell, update_writes. cbn [fst snd].
  destruct (grid_get g x y =? ALIVE).
  - destruct (resource_in_proximity x y g 3) as [[rx ry]|].
    + destruct (in_bounds _ _ && _); [|done]. by destruct ((_ =? rx) && (_ =? ry)).
    + destruct ((_ <? 2) || _); [done|]. by destruct (_ =? 3).
  - destruct (grid_get g x y =? DEAD); [|done]. by destruct (_ =? 3).
Qed.

Lemma apply_writes_app ws ws' g :
  apply_writes (ws ++ ws') g = apply_writes ws' (apply_writes ws g).
Proof. apply fold_left_app. Qed.

Lemma apply_writes_flat_map (f : Z * Z -> list write) l g :
  fold_left (fun s (q : Z * Z) => apply_writes (f q) s) l g =
  apply_writes (flat_map f l) g.
Proof.
  revert g. induction l as [|q l IH]; intros g; cbn [fold_left flat_map]; [done|].
  by rewrite apply_writes_app, IH.
Qed.

Lemma update_cells_log g : update_cells g = apply_writes (write_log g) g.
Proof.
  unfold update_cells, write_log. rewrite !for_each_nested. fold coords.
  rewrite apply_writes_app, <- !apply_writes_flat_map.
  rewrite (fold_left_agree (fun s (q : Z * Z) => remove_cell g q.1 q.2 s)
             (fun s q => apply_writes (remove_writes g q) s))
    by (intros s [x y]; apply remove_cell_writes).
  apply fold_left_agree. intros s [x y]. apply update_cell_writes.
Qed.

(** When all the writes to a cell carry the same value, that value is read
    after them as soon as one was made or the cell held it before. *)
Lemma apply_writes_get ws g x y v :
  shape_ok g -> in_bounds x y = true ->
  (forall w, In w ws -> in_bounds w.1.1 w.1.2 = true) ->
  (forall v', In ((x, y), v') ws -> v' = v) ->
  In ((x, y), v) ws \/ grid_get g x y = v ->
  grid_get (apply_writes ws g) x y = v.
Proof.
  intros Hs Hb. revert g Hs.
  induction ws as [|[[a b] u] ws IH]; intros g Hs Hin Hsame Hv; cbn [apply_writes fold_left].
  - by destruct Hv.
  - cbn [fst snd]. apply IH.
    + by apply shape_ok_set.
    + intros w Hw. apply Hin. by right.
    + intros v' Hv'. apply Hsame. by right.
    + assert (Hab : in_bounds a b = true) by (apply (Hin ((a, b), u)); by left).
      destruct (decide ((a, b) = (x, y))) as [[= -> ->]|Hne].
      * right. rewrite grid_get_set_eq by done. apply Hsame. by left.
      * destruct Hv as [[Hv|Hv]|Hv].
        -- inversion Hv; subst. done.
        -- by left.
        -- right. by rewrite grid_get_set_ne.
Qed.

Lemma shape_ok_apply_writes ws g : shape_ok g -> shape_ok (apply_writes ws g).
Proof.
  unfold apply_writes. apply fold_left_inv. intros s w. apply shape_ok_set.
Qed.

Lemma cells_valid_apply_writes ws g :
  (forall w, In w ws -> valid_state w.2) ->
  cells_valid g -> cells_valid (apply_writes ws g).
Proof.
  revert g. induction ws as [|w ws IH]; intros g Hw Hg; cbn; [done|].
  apply IH; [intros; apply Hw; by right|].
  apply cells_valid_set; [apply Hw; by left|done].
Qed.

(** *** What a mover's target is *)

Lemma move_target_Some g x y t :
  move_target g x y = Some t ->
  grid_get g x y = ALIVE /\
  in_bounds t.1 t.2 = true /\ grid_get g t.1 t.2 = DEAD /\
  exists rx ry,
    resource_in_proximity x y g 3 = Some (rx, ry) /\
    t = (x + Z.sgn (rx - x), y + Z.sgn (ry - y)).
Proof.
  unfold move_target.
  destruct (Z.eqb_spec (grid_get g x y) ALIVE) as [Ha|]; [|done].
  destruct (resource_in_proximity x y g 3) as [[rx ry]|]; [|done].
  destruct (in_bounds _ _ && _) eqn:Hg; [|done].
  intros [= <-]. apply andb_true_iff in Hg as [Hb Hd]. apply Z.eqb_eq in Hd.
  cbn [fst snd]. eauto 8.
Qed.

Lemma move_target_None_rip g x y :
  resource_in_proximity x y g 3 = None -> move_target g x y = None.
Proof. unfold move_target. intros ->. by destruct (_ =? ALIVE). Qed.

(** *** What is written, and by whom *)

Lemma In_remove_writes g q w :
  In w (remove_writes g q) <->
  w = (q, DEAD) /\ grid_get g q.1 q.2 = RESOURCE /\
  check_resource_surrounded q.1 q.2 g = true.
Proof.
  unfold remove_writes.
  destruct (Z.eqb_spec (grid_get g q.1 q.2) RESOURCE) as [Hr|Hr];
    destruct (check_resource_surrounded q.1 q.2 g); cbn [andb In];
    intuition congruence.
Qed.

Lemma In_update_writes g q w :
  In w (update_writes g q) <-> cell_write g q w.
Proof.
  destruct q as [x y]. split.
  - unfold update_writes. cbn [fst snd].
    destruct (Z.eqb_spec (grid_get g x y) ALIVE) as [Ha|Ha].
    + destruct (resource_in_proximity x y g 3) as [[rx ry]|] eqn:Hrip.
      * destruct (in_bounds _ _ && _) eqn:Hg; [|done].
        assert (Hm : move_target g x y =
                     Some (x + Z.sgn (rx - x), y + Z.sgn (ry - y))).
        { unfold move_target. rewrite Ha, Hrip. cbn [Z.eqb Pos.eqb ALIVE]. by rewrite Hg. }
        intros Hw. apply in_app_iff in Hw as [Hw|Hw].
        -- destruct Hw as [<-|[<-|[]]].
           ++ by apply cw_arrive.
           ++ by eapply (cw_leave g (x, y)).
        -- destruct ((_ =? rx) && _); [|done]. destruct Hw as [<-|[]].
           by apply cw_arrive.
      * destruct (_ || _) eqn:Hn.
        -- intros [<-|[]]. apply (cw_die g (x, y)); [done..|].
           cbn [fst snd]. apply orb_true_iff in Hn. lia.
        -- destruct (Z.eqb_spec (count_neighbors x y g) 3) as [H3|]; [|done].
           intros [<-|[]]. by apply (cw_survive g (x, y)).
    + destruct (Z.eqb_spec (grid_get g x y) DEAD) as [Hd|]; [|done].
      destruct (Z.eqb_spec (count_neighbors x y g) 3) as [H3|]; [|done].
      intros [<-|[]]. by apply (cw_birth g (x, y)).
  - intros Hw. unfold update_writes.
    inversion Hw as [t Hm|t Hm|Ha Hrip Hn|Ha Hrip Hn|Hd Hn]; subst; cbn [fst snd] in *.
    + apply move_target_Some in Hm as (Ha & Hb & Hd & rx & ry & Hrip & ->).
      cbn [fst snd] in *. rewrite Ha, Hrip, Hb, Hd. cbn. by left.
    + apply move_target_Some in Hm as (Ha & Hb & Hd & rx & ry & Hrip & ->).
      cbn [fst snd] in *. rewrite Ha, Hrip, Hb, Hd. cbn. right. by left.
    + rewrite Ha, Hrip. cbn [Z.eqb Pos.eqb ALIVE].
      replace (_ || _) with true by (symmetry; apply orb_true_iff; lia). by left.
    + rewrite Ha, Hrip, Hn. cbn. by left.
    + rewrite Hd, Hn. cbn. by left.
Qed.

Lemma cell_write_in_bounds g q w :
  in_bounds q.1 q.2 = true -> cell_write g q w -> in_bounds w.1.1 w.1.2 = true.
Proof.
  intros Hq Hw. inversion Hw as [t Hm| | | |]; subst; cbn [fst snd]; try done.
  by apply move_target_Some in Hm as (_ & Hb & _).
Qed.

Lemma write_log_in_bounds g w :
  In w (write_log g) -> in_bounds w.1.1 w.1.2 = true.
Proof.
  unfold write_log. rewrite in_app_iff, !in_flat_map.
  intros [([x y] & Hq & Hw)|([x y] & Hq & Hw)]; apply in_coords in Hq.
  - apply In_remove_writes in Hw as (-> & _). done.
  - apply In_update_writes in Hw. apply (cell_write_in_bounds g (x, y) w Hq Hw).
Qed.

Lemma In_write_log g w :
  In w (write_log g) <->
  (in_bounds w.1.1 w.1.2 = true /\ w.2 = DEAD /\
   grid_get g w.1.1 w.1.2 = RESOURCE /\
   check_resource_surrounded w.1.1 w.1.2 g = true) \/
  (exists q, in_bounds q.1 q.2 = true /\ cell_write g q w).
Proof.
  unfold write_log. rewrite in_app_iff, !in_flat_map. split.
  - intros [([x y] & Hq & Hw)|([x y] & Hq & Hw)]; apply in_coords in Hq.
    + apply In_remove_writes in Hw as (-> & Hr & Hs). left. done.
    + right. exists (x, y). split; [done|]. by apply In_update_writes.
  - intros [(Hb & Hv & Hr & Hs)|([x y] & Hq & Hw)].
    + left. destruct w as [[x y] v]. cbn [fst snd] in *. subst v.
      exists (x, y). split; [by apply in_coords|]. by apply In_remove_writes.
    + right. exists (x, y). split; [by apply in_coords|]. by apply In_update_writes.
Qed.

(** The value of a cell after the two loops, from the writes made to it. *)
Lemma update_cells_get g x y v :
  shape_ok g -> in_bounds x y = true ->
  (forall v', In ((x, y), v') (write_log g) -> v' = v) ->
  In ((x, y), v) (write_log g) \/ grid_get g x y = v ->
  grid_get (update_cells g) x y = v.
Proof.
  intros Hs Hb Hsame Hv. rewrite update_cells_log.
  apply apply_writes_get; [done|done|apply write_log_in_bounds|done|done].
Qed.

Lemma shape_ok_update_cells g : shape_ok g -> shape_ok (update_cells g).
Proof. rewrite update_cells_log. apply shape_ok_apply_writes. Qed.

(** *** The next state of a cell after the deterministic loops *)

Lemma cell_write_inv g q p v :
  cell_write g q (p, v) ->
  (move_target g q.1 q.2 = Some p /\ v = ALIVE /\ grid_get g p.1 p.2 = DEAD)
  \/ (q = p /\ v = DEAD /\ grid_get g p.1 p.2 = ALIVE /\
      exists t, move_target g p.1 p.2 = Some t)
  \/ (q = p /\ v = DEAD /\ grid_get g p.1 p.2 = ALIVE /\
      resource_in_proximity p.1 p.2 g 3 = None /\
      (count_neighbors p.1 p.2 g < 2 \/ count_neighbors p.1 p.2 g > 3))
  \/ (q = p /\ v = ALIVE /\ grid_get g p.1 p.2 = ALIVE /\
      resource_in_proximity p.1 p.2 g 3 = None /\ count_neighbors p.1 p.2 g = 3)
  \/ (q = p /\ v = ALIVE /\ grid_get g p.1 p.2 = DEAD /\
      count_neighbors p.1 p.2 g = 3).
Proof.
  intros Hw. inversion Hw as [t Hm|t Hm|Ha Hrip Hn|Ha Hrip Hn|Hd Hn]; subst.
  - left. split; [done|]. split; [done|]. by apply move_target_Some in Hm as (_ & _ & Hd & _).
  - right; left. split; [done|]. split; [done|]. split; [|eauto].
    by apply move_target_Some in Hm as (Ha & _).
  - right; right; left. done.
  - right; right; right; left. done.
  - right; right; right; right. done.
Qed.

Ltac states := unfold ALIVE, DEAD, RESOURCE in *; solve [congruence | lia].

(** Splits a write to the cell at hand by its origin. *)
Ltac log_cases H :=
  let q := fresh "q" in
  let Hq := fresh "Hq" in
  let Hw := fresh "Hw" in
  apply In_write_log in H as [H|(q & Hq & Hw)];
  [ cbn [fst snd] in H; destruct H as (_ & ? & ? & ?)
  | apply cell_write_inv in Hw
      as [(? & ? & ?)|[(? & ? & ? & [? ?])|[(? & ? & ? & ? & ?)|[(? & ? & ? & ? & ?)|(? & ? & ? & ?)]]]];
    cbn [fst snd] in * ].

Lemma update_cells_resource g x y :
  shape_ok g -> in_bounds x y = true -> grid_get g x y = RESOURCE ->
  grid_get (update_cells g) x y =
  if check_resource_surrounded x y g then DEAD else RESOURCE.
Proof.
  intros Hs Hb Hr. apply update_cells_get; [done..| |].
  - intros v' H. log_cases H; try states.
    subst. by replace (check_resource_surrounded x y g) with true.
  - destruct (check_resource_surrounded x y g) eqn:Hsur; [|by right].
    left. apply In_write_log. left. done.
Qed.

Lemma update_cells_moved g x y t :
  shape_ok g -> in_bounds x y = true -> move_target g x y = Some t ->
  grid_get (update_cells g) x y = DEAD /\ grid_get (update_cells g) t.1 t.2 = ALIVE.
Proof.
  intros Hs Hb Hm.
  pose proof (move_target_Some _ _ _ _ Hm) as (Ha & Hbt & Hd & rx & ry & Hrip & Et).
  split.
  - apply update_cells_get; [done..| |].
    + intros v' H. log_cases H; subst; try states; try done.
    + left. apply In_write_log. right. exists (x, y). split; [done|].
      by apply (cw_leave g (x, y) t).
  - destruct t as [tx ty]. cbn [fst snd] in *.
    apply update_cells_get; [done..| |].
    + intros v' H. log_cases H; subst; try states; try done.
    + left. apply In_write_log. right. exists (x, y). split; [done|].
      by apply (cw_arrive g (x, y)).
Qed.

Lemma update_cells_blocked g x y :
  shape_ok g -> in_bounds x y = true -> grid_get g x y = ALIVE ->
  resource_in_proximity x y g 3 <> None -> move_target g x y = None ->
  grid_get (update_cells g) x y = ALIVE.
Proof.
  intros Hs Hb Ha Hrip Hm. apply update_cells_get; [done..| |by right].
  intros v' H. log_cases H; subst; try states; try done; congruence.
Qed.

Lemma update_cells_conway g x y :
  shape_ok g -> in_bounds x y = true -> grid_get g x y = ALIVE ->
  resource_in_proximity x y g 3 = None ->
  grid_get (update_cells g) x y =
  if (count_neighbors x y g <? 2) || (count_neighbors x y g >? 3) then DEAD else ALIVE.
Proof.
  intros Hs Hb Ha Hrip.
  pose proof (move_target_None_rip _ _ _ Hrip) as Hm.
  destruct (_ || _) eqn:Hn.
  - apply orb_true_iff in Hn. rewrite Z.ltb_lt, Z.gtb_gt in Hn.
    apply update_cells_get; [done..| |].
    + intros v' H. log_cases H; subst; try states; try done; congruence.
    + left. apply In_write_log. right. exists (x, y). split; [done|].
      apply (cw_die g (x, y)); cbn [fst snd]; [done|done|lia].
  - apply orb_false_iff in Hn as [Hlo Hhi].
    apply Z.ltb_ge in Hlo. rewrite Z.gtb_ltb in Hhi. apply Z.ltb_ge in Hhi.
    apply update_cells_get; [done..| |by right].
    intros v' H. log_cases H; subst; try states; try done; congruence.
Qed.

Lemma update_cells_birth g x y :
  shape_ok g -> in_bounds x y = true -> grid_get g x y = DEAD ->
  count_neighbors x y g = 3 ->
  grid_get (update_cells g) x y = ALIVE.
Proof.
  intros Hs Hb Hd Hn. apply update_cells_get; [done..| |].
  - intros v' H. log_cases H; subst; try states; try done.
  - left. apply In_write_log. right. exists (x, y). split; [done|].
    by apply (cw_birth g (x, y)).
Qed.

Lemma update_cells_dead g x y :
  shape_ok g -> in_bounds x y = true -> grid_get g x y = DEAD ->
  count_neighbors x y g <> 3 ->
  (forall qx qy, in_bounds qx qy = true -> move_target g qx qy <> Some (x, y)) ->
  grid_get (update_cells g) x y = DEAD.
Proof.
  intros Hs Hb Hd Hn Hnone. apply update_cells_get; [done..| |by right].
  intros v' H. log_cases H; subst; try states; try done.
  destruct q as [qx qy]. cbn [fst snd] in *. by destruct (Hnone qx qy).
Qed.

(** ** The spawning loop *)

Lemma Qltb_lt a b : Qltb a b = true <-> (a < b)%Q.
Proof.
  unfold Qltb. rewrite Qlt_alt. destruct (a ?= b)%Q; intuition congruence.
Qed.

Lemma spawn_new_resources_list rnd g n :
  spawn_new_resources rnd g n = spawn_list rnd coords g n.
Proof. unfold spawn_new_resources, spawn_list. by rewrite for_each_m_nested. Qed.

Lemma spawn_cell_grid rnd x y g n :
  (spawn_cell rnd x y g n).1 =
  if (grid_get g x y =? DEAD) && Qltb (rnd n) RESOURCE_SPAWN_CHANCE
  then grid_set g x y RESOURCE else g.
Proof.
  unfold spawn_cell, bind, random_random, ret.
  destruct (grid_get g x y =? DEAD); [|done].
  by destruct (Qltb (rnd n) RESOURCE_SPAWN_CHANCE).
Qed.

Lemma spawn_cell_draws rnd x y g n :
  (spawn_cell rnd x y g n).2 = if grid_get g x y =? DEAD then S n else n.
Proof.
  unfold spawn_cell, bind, random_random, ret.
  destruct (grid_get g x y =? DEAD); [|done].
  by destruct (Qltb (rnd n) RESOURCE_SPAWN_CHANCE).
Qed.

Lemma shape_ok_spawn_cell rnd x y g n :
  shape_ok g -> shape_ok (spawn_cell rnd x y g n).1.
Proof.
  intros Hs. rewrite spawn_cell_grid. destruct (_ && _); [|done]. by apply shape_ok_set.
Qed.

Lemma spawn_cell_other rnd x y g n x' y' :
  in_bounds x y = true -> in_bounds x' y' = true -> (x, y) <> (x', y') ->
  grid_get (spawn_cell rnd x y g n).1 x' y' = grid_get g x' y'.
Proof.
  intros Hb Hb' Hne. rewrite spawn_cell_grid. destruct (_ && _); [|done].
  by apply grid_get_set_ne.
Qed.

Lemma spawn_list_cons rnd q l g n :
  spawn_list rnd (q :: l) g n =
  spawn_list rnd l (spawn_cell rnd q.1 q.2 g n).1 (spawn_cell rnd q.1 q.2 g n).2.
Proof.
  unfold spawn_list. cbn [for_each_m]. unfold bind at 1.
  by destruct (spawn_cell rnd q.1 q.2 g n).
Qed.

Lemma spawn_list_notin rnd l g n x y :
  in_bounds x y = true ->
  (forall q, In q l -> in_bounds q.1 q.2 = true) ->
  ~ In (x, y) l ->
  grid_get (spawn_list rnd l g n).1 x y = grid_get g x y.
Proof.
  intros Hb. revert g n. induction l as [|[a b] l IH]; intros g n Hl Hnin; [done|].
  rewrite spawn_list_cons. cbn [fst snd]. rewrite IH.
  - apply spawn_cell_other; [apply (Hl (a, b)); by left|done|].
    intros E. apply Hnin. by left.
  - intros q Hq. apply Hl. by right.
  - intros Hin. apply Hnin. by right.
Qed.

Lemma dead_before_agree g g' l p :
  (forall q, In q l -> grid_get g q.1 q.2 = grid_get g' q.1 q.2) ->
  dead_before g l p = dead_before g' l p.
Proof.
  induction l as [|q l IH]; intros H; cbn [dead_before]; [done|].
  rewrite (H q) by (by left). rewrite IH; [done|]. intros; apply H; by right.
Qed.

Lemma count_dead_agree g g' l :
  (forall q, In q l -> grid_get g q.1 q.2 = grid_get g' q.1 q.2) ->
  count_dead g l = count_dead g' l.
Proof.
  intros H. unfold count_dead. f_equal. apply filter_ext_in'.
  intros q Hq. by rewrite H.
Qed.

(** The cell [(x, y)] of the list is read as it was before the loop, and
    takes the draw ranked by the DEAD cells before it. *)
Lemma spawn_list_in rnd l g n x y :
  shape_ok g -> NoDup l ->
  (forall q, In q l -> in_bounds q.1 q.2 = true) ->
  In (x, y) l ->
  grid_get (spawn_list rnd l g n).1 x y =
  if (grid_get g x y =? DEAD) &&
     Qltb (rnd (n + dead_before g l (x, y))%nat) RESOURCE_SPAWN_CHANCE
  then RESOURCE else grid_get g x y.
Proof.
  revert g n. induction l as [|[a b] l IH]; intros g n Hs Hnd Hl Hin; [done|].
  apply NoDup_cons in Hnd as [Hnin Hnd]. rewrite list_elem_of_In in Hnin.
  assert (Hab : in_bounds a b = true) by (apply (Hl (a, b)); by left).
  assert (Hl' : forall q, In q l -> in_bounds q.1 q.2 = true)
    by (intros; apply Hl; by right).
  rewrite spawn_list_cons. cbn [fst snd dead_before].
  destruct (decide ((a, b) = (x, y))) as [[= -> ->]|Hne].
  - rewrite spawn_list_notin by done. rewrite spawn_cell_grid, Nat.add_0_r.
    destruct (_ && _); [|done]. by apply grid_get_set_eq.
  - destruct Hin as [Hin|Hin]; [done|].
    assert (Hxy : in_bounds x y = true) by (by apply (Hl' (x, y))).
    rewrite IH; [|by apply shape_ok_spawn_cell|done..].
    rewrite spawn_cell_other by done.
    rewrite (dead_before_agree _ g).
    + rewrite spawn_cell_draws.
      destruct (grid_get g a b =? DEAD); [|done].
      by replace (S n + dead_before g l (x, y))%nat
        with (n + S (dead_before g l (x, y)))%nat by lia.
    + intros [c d] Hq. cbn [fst snd]. apply spawn_cell_other; [done|by apply (Hl' (c, d))|].
      intros [= -> ->]. done.
Qed.

(** One draw is taken for each DEAD cell of the list. *)
Lemma spawn_list_draws rnd l g n :
  NoDup l -> (forall q, In q l -> in_bounds q.1 q.2 = true) ->
  (spawn_list rnd l g n).2 = (n + count_dead g l)%nat.
Proof.
  revert g n. induction l as [|[a b] l IH]; intros g n Hnd Hl.
  - cbn. lia.
  - apply NoDup_cons in Hnd as [Hnin Hnd]. rewrite list_elem_of_In in Hnin.
    assert (Hab : in_bounds a b = true) by (apply (Hl (a, b)); by left).
    assert (Hl' : forall q, In q l -> in_bounds q.1 q.2 = true)
      by (intros; apply Hl; by right).
    rewrite spawn_list_cons, IH by done. cbn [fst snd].
    rewrite spawn_cell_draws. rewrite (count_dead_agree _ g).
    + unfold count_dead. cbn [List.filter fst snd].
      destruct (grid_get g a b =? DEAD); cbn [length]; lia.
    + intros [c d] Hq. cbn [fst snd]. apply spawn_cell_other; [done|by apply (Hl' (c, d))|].
      intros [= -> ->]. done.
Qed.

Lemma dead_before_lt g l p :
  In p l -> grid_get g p.1 p.2 = DEAD ->
  (dead_before g l p < count_dead g l)%nat.
Proof.
  unfold count_dead. induction l as [|q l IH]; intros Hin Hd; [done|].
  cbn [dead_before List.filter].
  destruct (decide (q = p)) as [->|Hne].
  - rewrite Hd. cbn. lia.
  - destruct Hin as [Hin|Hin]; [done|]. specialize (IH Hin Hd).
    destruct (grid_get g q.1 q.2 =? DEAD); cbn [length]; lia.
Qed.

Lemma dead_before_inj g l p p' :
  In p l -> In p' l ->
  grid_get g p.1 p.2 = DEAD -> grid_get g p'.1 p'.2 = DEAD ->
  dead_before g l p = dead_before g l p' -> p = p'.
Proof.
  induction l as [|q l IH]; intros Hin Hin' Hd Hd'; [done|].
  cbn [dead_before].
  destruct (decide (q = p)) as [E|Hne], (decide (q = p')) as [E'|Hne'].
  - congruence.
  - subst q. rewrite Hd. done.
  - subst q. rewrite Hd'. done.
  - destruct Hin as [|Hin]; [done|]. destruct Hin' as [|Hin']; [done|].
    destruct (grid_get g q.1 q.2 =? DEAD); intros E; apply IH; auto.
Qed.

Lemma shape_ok_spawn_list rnd l g n : shape_ok g -> shape_ok (spawn_list rnd l g n).1.
Proof.
  unfold spawn_list. apply for_each_m_inv. intros q s k. apply shape_ok_spawn_cell.
Qed.

Lemma cells_valid_spawn_list rnd l g n :
  cells_valid g -> cells_valid (spawn_list rnd l g n).1.
Proof.
  unfold spawn_list. apply for_each_m_inv. intros q s k Hv.
  rewrite spawn_cell_grid. destruct (_ && _); [|done].
  apply cells_valid_set; [|done]. right; right; done.
Qed.

(** The cell returned by [update_grid], from the cell after the two
    deterministic loops and the draw of the spawning loop. *)
Lemma update_grid_get rnd g n x y :
  shape_ok g -> in_bounds x y = true ->
  grid_get (update_grid rnd g n).1 x y =
  if (grid_get (update_cells g) x y =? DEAD) &&
     Qltb (rnd (n + draw_index (update_cells g) x y)%nat) RESOURCE_SPAWN_CHANCE
  then RESOURCE else grid_get (update_cells g) x y.
Proof.
  intros Hs Hb. unfold update_grid, draw_index. rewrite spawn_new_resources_list.
  apply spawn_list_in.
  - by apply shape_ok_update_cells.
  - apply NoDup_coords.
  - intros [a b] Hq. by apply in_coords.
  - by apply in_coords.
Qed.

Lemma update_grid_keeps rnd g n x y v :
  shape_ok g -> in_bounds x y = true ->
  grid_get (update_cells g) x y = v -> v <> DEAD ->
  grid_get (update_grid rnd g n).1 x y = v.
Proof.
  intros Hs Hb Hv Hne. rewrite update_grid_get by done. rewrite Hv.
  destruct (Z.eqb_spec v DEAD); done.
Qed.

Lemma update_grid_dead rnd g n x y :
  shape_ok g -> in_bounds x y = true ->
  grid_get (update_cells g) x y = DEAD ->
  grid_get (update_grid rnd g n).1 x y =
  if Qltb (rnd (n + draw_index (update_cells g) x y)%nat) RESOURCE_SPAWN_CHANCE
  then RESOURCE else DEAD.
Proof.
  intros Hs Hb Hv. rewrite update_grid_get by done. rewrite Hv. done.
Qed.

(** ** Enclosed resources *)

Lemma neighbour_passes g (nx ny : Z) :
  (if in_bounds nx ny
   then if negb (grid_get g nx ny =? ALIVE) && negb (grid_get g nx ny =? RESOURCE)
        then false else true
   else true) = true <->
  (in_bounds nx ny = true ->
   grid_get g nx ny = ALIVE \/ grid_get g nx ny = RESOURCE).
Proof.
  destruct (in_bounds nx ny); [|split; [intros _ [=]|done]].
  destruct (Z.eqb_spec (grid_get g nx ny) ALIVE), (Z.eqb_spec (grid_get g nx ny) RESOURCE);
    cbn; split; auto; intros H; try done.
  destruct (H eq_refl); done.
Qed.

Lemma check_resource_surrounded_spec x y g :
  check_resource_surrounded x y g = true <->
  Forall (fun q : Z * Z =>
            in_bounds q.1 q.2 = true ->
            grid_get g q.1 q.2 = ALIVE \/ grid_get g q.1 q.2 = RESOURCE)
         (moore x y).
Proof.
  unfold check_resource_surrounded, moore. cbn [forallb Z.eqb andb].
  change (x - 1) with (x + -1). change (y - 1) with (y + -1).
  rewrite !Z.add_0_r, !andb_true_r, !andb_true_iff, !neighbour_passes.
  rewrite !Forall_cons, Forall_nil. cbn [fst snd]. tauto.
Qed.

Lemma check_resource_surrounded_dead x y g :
  Exists (fun q => holds g DEAD q = true) (moore x y) ->
  check_resource_surrounded x y g = false.
Proof.
  intros Hex. apply not_true_is_false. rewrite check_resource_surrounded_spec.
  intros Hall. apply Exists_exists in Hex as (q & Hq & Hh).
  apply holds_true in Hh as [Hb Hd].
  rewrite Forall_forall in Hall. destruct (Hall q Hq Hb); states.
Qed.

(** Claim C4.  A RESOURCE cell all of whose Moore neighbours inside the array are ALIVE
    or RESOURCE is DEAD after the two deterministic loops, and in the grid
    returned it is what the spawning loop makes of a DEAD cell: RESOURCE when
    its draw succeeds, DEAD otherwise.  A RESOURCE cell with a DEAD Moore
    neighbour inside the array is RESOURCE in the grid returned. *)
Theorem enclosed_resource_removed (g : grid) (x y : Z) (rnd : nat -> Q) (n : nat) :
  shape_ok g -> in_bounds x y = true -> grid_get g x y = RESOURCE ->
  (Forall (fun q : Z * Z =>
             in_bounds q.1 q.2 = true ->
             grid_get g q.1 q.2 = ALIVE \/ grid_get g q.1 q.2 = RESOURCE)
          (moore x y) ->
   grid_get (update_cells g) x y = DEAD /\
   grid_get (update_grid rnd g n).1 x y =
     spawn_outcome rnd (n + draw_index (update_cells g) x y))
  /\ (Exists (fun q => holds g DEAD q = true) (moore x y) ->
      grid_get (update_cells g) x y = RESOURCE /\
      grid_get (update_grid rnd g n).1 x y = RESOURCE).
Proof.
  intros Hs Hb Hr. pose proof (update_cells_resource g x y Hs Hb Hr) as Hu. split.
  - intros Hall. apply check_resource_surrounded_spec in Hall. rewrite Hall in Hu.
    split; [done|]. by apply update_grid_dead.
  - intros Hex. apply check_resource_surrounded_dead in Hex. rewrite Hex in Hu.
    split; [done|]. apply update_grid_keeps; [done..|states].
Qed.

(** ** Movement *)

Lemma move_target_step g x y rx ry :
  grid_get g x y = ALIVE -> resource_in_proximity x y g 3 = Some (rx, ry) ->
  in_bounds (x + Z.sgn (rx - x)) (y + Z.sgn (ry - y)) = true ->
  grid_get g (x + Z.sgn (rx - x)) (y + Z.sgn (ry - y)) = DEAD ->
  move_target g x y = Some (x + Z.sgn (rx - x), y + Z.sgn (ry - y)).
Proof.
  intros Ha Hrip Hb Hd. unfold move_target. rewrite Ha, Hrip, Hb, Hd. done.
Qed.

Lemma move_target_blocked g x y rx ry :
  resource_in_proximity x y g 3 = Some (rx, ry) ->
  in_bounds (x + Z.sgn (rx - x)) (y + Z.sgn (ry - y)) = false \/
  grid_get g (x + Z.sgn (rx - x)) (y + Z.sgn (ry - y)) <> DEAD ->
  move_target g x y = None.
Proof.
  intros Hrip Hblock. unfold move_target. rewrite Hrip.
  destruct (_ =? ALIVE); [|done].
  destruct Hblock as [->|Hne]; [done|].
  destruct (Z.eqb_spec (grid_get g (x + Z.sgn (rx - x)) (y + Z.sgn (ry - y))) DEAD);
    [done|]. by rewrite andb_false_r.
Qed.

Lemma sensed_is_resource g x y r rx ry :
  resource_in_proximity x y g r = Some (rx, ry) ->
  in_bounds rx ry = true /\ grid_get g rx ry = RESOURCE /\
  - r <= rx - x <= r /\ - r <= ry - y <= r.
Proof.
  intros H. apply resource_in_proximity_Some in H as ([Hx Hy] & Hh & _).
  cbn [fst snd] in *. apply holds_true in Hh as [Hb Hr]. cbn [fst snd] in *.
  replace (x + (rx - x)) with rx in * by lia.
  replace (y + (ry - y)) with ry in * by lia. done.
Qed.

(** Claim C1.  A live cell that senses a resource and whose step towards it leaves the
    array or lands on a cell that is not DEAD writes nothing: it does not
    move, and it is ALIVE in the grid returned whatever the number of its
    live neighbours. *)
Theorem blocked_mover_stays_alive
    (g : grid) (x y rx ry : Z) (rnd : nat -> Q) (n : nat) :
  shape_ok g -> in_bounds x y = true -> grid_get g x y = ALIVE ->
  resource_in_proximity x y g 3 = Some (rx, ry) ->
  in_bounds (x + Z.sgn (rx - x)) (y + Z.sgn (ry - y)) = false \/
  grid_get g (x + Z.sgn (rx - x)) (y + Z.sgn (ry - y)) <> DEAD ->
  (forall new_grid : grid, update_cell g x y new_grid = new_grid)
  /\ grid_get (update_cells g) x y = ALIVE
  /\ grid_get (update_grid rnd g n).1 x y = ALIVE.
Proof.
  intros Hs Hb Ha Hrip Hblock.
  pose proof (move_target_blocked g x y rx ry Hrip Hblock) as Hm.
  assert (Hu : grid_get (update_cells g) x y = ALIVE).
  { apply update_cells_blocked; [done..|congruence|done]. }
  split; [|split; [done|]].
  - intros new_grid. unfold update_cell. rewrite Ha, Hrip. cbn [Z.eqb Pos.eqb ALIVE].
    unfold move_target in Hm. rewrite Ha, Hrip in Hm. cbn [Z.eqb Pos.eqb ALIVE] in Hm.
    by destruct (in_bounds _ _ && _).
  - apply update_grid_keeps; [done..|states].
Qed.

(** Claim C2.  A live cell that senses a resource at [(rx, ry)] and whose step
    [(x + sign (rx - x), y + sign (ry - y))] lands inside the array on a DEAD
    cell moves there: after the two deterministic loops the target is ALIVE
    and [(x, y)] is DEAD; in the grid returned the target is ALIVE and
    [(x, y)] is what the spawning loop makes of a DEAD cell.  The target is
    another cell, at most one step away on each axis. *)
Theorem mover_relocates
    (g : grid) (x y rx ry : Z) (rnd : nat -> Q) (n : nat) :
  shape_ok g -> in_bounds x y = true -> grid_get g x y = ALIVE ->
  resource_in_proximity x y g 3 = Some (rx, ry) ->
  in_bounds (x + Z.sgn (rx - x)) (y + Z.sgn (ry - y)) = true ->
  grid_get g (x + Z.sgn (rx - x)) (y + Z.sgn (ry - y)) = DEAD ->
  grid_get (update_cells g) (x + Z.sgn (rx - x)) (y + Z.sgn (ry - y)) = ALIVE
  /\ grid_get (update_cells g) x y = DEAD
  /\ grid_get (update_grid rnd g n).1 (x + Z.sgn (rx - x)) (y + Z.sgn (ry - y)) = ALIVE
  /\ grid_get (update_grid rnd g n).1 x y =
       spawn_outcome rnd (n + draw_index (update_cells g) x y)
  /\ (x + Z.sgn (rx - x), y + Z.sgn (ry - y)) <> (x, y)
  /\ Z.abs (Z.sgn (rx - x)) <= 1 /\ Z.abs (Z.sgn (ry - y)) <= 1.
Proof.
  intros Hs Hb Ha Hrip Hbt Hd.
  pose proof (move_target_step g x y rx ry Ha Hrip Hbt Hd) as Hm.
  destruct (update_cells_moved g x y _ Hs Hb Hm) as [Hleft Harrived].
  cbn [fst snd] in Harrived.
  split; [done|]. split; [done|]. split; [|split; [|split]].
  - apply update_grid_keeps; [done..|states].
  - by apply update_grid_dead.
  - intros E. inversion E as [[Ex Ey]].
    replace (x + Z.sgn (rx - x)) with x in Hd by lia.
    replace (y + Z.sgn (ry - y)) with y in Hd by lia. states.
  - pose proof (Z.sgn_spec (rx - x)). pose proof (Z.sgn_spec (ry - y)). lia.
Qed.

(** Claim C7.  The branch of [update_grid] that would mark a consumed resource is never
    taken: whenever the guard of the move holds, the target differs from the
    position of the sensed resource.  A mover never lands on a cell that
    holds RESOURCE, and a RESOURCE cell is never ALIVE in the grid returned. *)
Theorem consume_branch_unreachable :
  (forall (g : grid) x y rx ry,
     resource_in_proximity x y g 3 = Some (rx, ry) ->
     in_bounds (x + Z.sgn (rx - x)) (y + Z.sgn (ry - y)) &&
       (grid_get g (x + Z.sgn (rx - x)) (y + Z.sgn (ry - y)) =? DEAD) = true ->
     (x + Z.sgn (rx - x) =? rx) && (y + Z.sgn (ry - y) =? ry) = false)
  /\ (forall (g : grid) x y t,
        move_target g x y = Some t -> grid_get g t.1 t.2 <> RESOURCE)
  /\ (forall (g : grid) x y rnd n,
        shape_ok g -> in_bounds x y = true -> grid_get g x y = RESOURCE ->
        grid_get (update_cells g) x y <> ALIVE /\
        grid_get (update_grid rnd g n).1 x y <> ALIVE).
Proof.
  split; [|split].
  - intros g x y rx ry Hrip Hguard.
    apply andb_true_iff in Hguard as [_ Hd]. apply Z.eqb_eq in Hd.
    apply sensed_is_resource in Hrip as (_ & Hr & _).
    apply andb_false_iff.
    destruct (Z.eqb_spec (x + Z.sgn (rx - x)) rx) as [Ex|]; [|by left].
    destruct (Z.eqb_spec (y + Z.sgn (ry - y)) ry) as [Ey|]; [|by right].
    rewrite Ex, Ey in Hd. states.
  - intros g x y t Hm. apply move_target_Some in Hm as (_ & _ & Hd & _). states.
  - intros g x y rnd n Hs Hb Hr.
    pose proof (update_cells_resource g x y Hs Hb Hr) as Hu.
    rewrite update_grid_get by done. rewrite Hu.
    destruct (check_resource_surrounded x y g); cbn [Z.eqb DEAD RESOURCE andb].
    + split; [states|]. destruct (Qltb _ _); states.
    + split; states.
Qed.

(** ** Classic rules *)

Lemma no_resource_no_arrival g x y qx qy :
  (forall d, in_reach 3 d -> holds g RESOURCE (x + d.1, y + d.2) = false) ->
  move_target g qx qy <> Some (x, y).
Proof.
  intros Hnone Hm.
  apply move_target_Some in Hm as (_ & _ & _ & rx & ry & Hrip & [= -> ->]).
  apply sensed_is_resource in Hrip as (Hb & Hr & Hx & Hy).
  pose proof (Z.sgn_spec (rx - qx)). pose proof (Z.sgn_spec (ry - qy)).
  specialize (Hnone (rx - (qx + Z.sgn (rx - qx)), ry - (qy + Z.sgn (ry - qy)))).
  cbn [fst snd] in Hnone.
  replace (qx + Z.sgn (rx - qx) + (rx - (qx + Z.sgn (rx - qx)))) with rx in Hnone by lia.
  replace (qy + Z.sgn (ry - qy) + (ry - (qy + Z.sgn (ry - qy)))) with ry in Hnone by lia.
  assert (Hh : holds g RESOURCE (rx, ry) = true) by (by apply holds_true).
  rewrite Hnone in Hh; [done|]. unfold in_reach. cbn [fst snd]. lia.
Qed.

(** Claim C5.  For a cell with no resource within radius 3: a live cell with fewer than
    2 or more than 3 live neighbours is DEAD after the two deterministic
    loops, a live cell with 2 or 3 stays ALIVE, a DEAD cell with exactly 3
    becomes ALIVE and any other DEAD cell is DEAD after them.  In the grid
    returned the ALIVE ones are ALIVE and the DEAD ones are what the spawning
    loop makes of a DEAD cell. *)
Theorem classic_rules_without_resource
    (g : grid) (x y : Z) (rnd : nat -> Q) (n : nat) :
  shape_ok g -> in_bounds x y = true ->
  (forall d, in_reach 3 d -> holds g RESOURCE (x + d.1, y + d.2) = false) ->
  (grid_get g x y = ALIVE ->
     (count_neighbors x y g < 2 \/ count_neighbors x y g > 3 ->
        grid_get (update_cells g) x y = DEAD /\
        grid_get (update_grid rnd g n).1 x y =
          spawn_outcome rnd (n + draw_index (update_cells g) x y))
     /\ (count_neighbors x y g = 2 \/ count_neighbors x y g = 3 ->
           grid_get (update_cells g) x y = ALIVE /\
           grid_get (update_grid rnd g n).1 x y = ALIVE))
  /\ (grid_get g x y = DEAD ->
        (count_neighbors x y g = 3 ->
           grid_get (update_cells g) x y = ALIVE /\
           grid_get (update_grid rnd g n).1 x y = ALIVE)
        /\ (count_neighbors x y g <> 3 ->
              grid_get (update_cells g) x y = DEAD /\
              grid_get (update_grid rnd g n).1 x y =
                spawn_outcome rnd (n + draw_index (update_cells g) x y))).
Proof.
  intros Hs Hb Hnone.
  assert (Hrip : resource_in_proximity x y g 3 = None)
    by (by apply resource_in_proximity_None).
  split.
  - intros Ha. pose proof (update_cells_conway g x y Hs Hb Ha Hrip) as Hu. split.
    + intros Hn.
      replace (_ || _) with true in Hu
        by (symmetry; rewrite orb_true_iff, Z.ltb_lt, Z.gtb_gt; lia).
      split; [done|]. by apply update_grid_dead.
    + intros Hn.
      replace (_ || _) with false in Hu
        by (symmetry; rewrite orb_false_iff, Z.ltb_ge, Z.gtb_ltb, Z.ltb_ge; lia).
      split; [done|]. apply update_grid_keeps; [done..|states].
  - intros Hd. split.
    + intros Hn. pose proof (update_cells_birth g x y Hs Hb Hd Hn) as Hu.
      split; [done|]. apply update_grid_keeps; [done..|states].
    + intros Hn.
      assert (Hu : grid_get (update_cells g) x y = DEAD).
      { apply update_cells_dead; [done..|].
        intros qx qy _. by apply no_resource_no_arrival. }
      split; [done|]. by apply update_grid_dead.
Qed.

(** ** The spawning pass *)

(** Claim C8.  [spawn_new_resources] changes DEAD cells only, and only to RESOURCE: a
    cell that is not DEAD is returned as it was; a DEAD cell becomes RESOURCE
    exactly when its draw is below RESOURCE_SPAWN_CHANCE and stays DEAD
    otherwise.  Each DEAD cell has a draw of its own, and these are all the
    draws taken.  This holds for every grid of the right shape, so for the
    grid the two deterministic loops produce. *)
Theorem spawn_touches_dead_only (rnd : nat -> Q) (g2 : grid) (n : nat) :
  shape_ok g2 ->
  (forall x y, in_bounds x y = true ->
     (grid_get g2 x y <> DEAD ->
        grid_get (spawn_new_resources rnd g2 n).1 x y = grid_get g2 x y)
     /\ (grid_get g2 x y = DEAD ->
           ((rnd (n + draw_index g2 x y)%nat < RESOURCE_SPAWN_CHANCE)%Q ->
              grid_get (spawn_new_resources rnd g2 n).1 x y = RESOURCE)
           /\ (~ (rnd (n + draw_index g2 x y)%nat < RESOURCE_SPAWN_CHANCE)%Q ->
                 grid_get (spawn_new_resources rnd g2 n).1 x y = DEAD)))
  /\ (forall x y x' y',
        in_bounds x y = true -> in_bounds x' y' = true ->
        grid_get g2 x y = DEAD -> grid_get g2 x' y' = DEAD ->
        draw_index g2 x y = draw_index g2 x' y' -> (x, y) = (x', y'))
  /\ (forall x y,
        in_bounds x y = true -> grid_get g2 x y = DEAD ->
        (draw_index g2 x y < count_dead g2 coords)%nat)
  /\ (spawn_new_resources rnd g2 n).2 = (n + count_dead g2 coords)%nat.
Proof.
  intros Hs.
  assert (Hc : forall q : Z * Z, In q coords -> in_bounds q.1 q.2 = true)
    by (intros [a b]; apply in_coords).
  rewrite spawn_new_resources_list. split; [|split; [|split]].
  - intros x y Hb.
    rewrite (spawn_list_in rnd coords g2 n x y Hs NoDup_coords Hc)
      by (by apply in_coords).
    fold (draw_index g2 x y). split.
    + intros Hne. destruct (Z.eqb_spec (grid_get g2 x y) DEAD); done.
    + intros ->. cbn [Z.eqb DEAD andb]. split; intros Hdraw.
      * apply Qltb_lt in Hdraw. by rewrite Hdraw.
      * destruct (Qltb _ _) eqn:E; [|done]. by apply Qltb_lt in E.
  - intros x y x' y' Hb Hb' Hd Hd' E. unfold draw_index in E.
    apply (dead_before_inj g2 coords (x, y) (x', y')); try done; by apply in_coords.
  - intros x y Hb Hd. apply (dead_before_lt g2 coords (x, y)); [by apply in_coords|done].
  - by apply spawn_list_draws; [apply NoDup_coords|].
Qed.

(** ** Determinism *)

Lemma Qltb_Qeq a b c : (a == b)%Q -> Qltb a c = Qltb b c.
Proof. intros E. unfold Qltb. by rewrite E. Qed.

Lemma spawn_cell_draws_agree rnd rnd' x y g n :
  (forall i, (rnd i == rnd' i)%Q) ->
  spawn_cell rnd x y g n = spawn_cell rnd' x y g n.
Proof.
  intros E. unfold spawn_cell, bind, random_random, ret.
  destruct (grid_get g x y =? DEAD); [|done].
  by rewrite (Qltb_Qeq _ _ _ (E n)).
Qed.

(** Claim C9.  [update_grid] is a function of the grid and of the draws: on equal grids,
    from the same rank, two random sources that give equal draws yield the
    same grid and leave the same number of draws taken. *)
Theorem update_grid_deterministic (g g' : grid) (rnd rnd' : nat -> Q) (n : nat) :
  g = g' -> (forall i, (rnd i == rnd' i)%Q) ->
  update_grid rnd g n = update_grid rnd' g' n.
Proof.
  intros <- E. unfold update_grid, spawn_new_resources.
  apply for_each_m_ext. intros x s k.
  apply for_each_m_ext. intros y s' k'. by apply spawn_cell_draws_agree.
Qed.

(** ** The three states *)

Lemma create_grid_list rnd n : create_grid rnd n = seed_list rnd coords np_zeros n.
Proof. unfold create_grid, seed_list. by rewrite for_each_m_nested. Qed.

Lemma seed_cell_inv rnd x y g n :
  cells_valid g /\ shape_ok g ->
  cells_valid (seed_cell rnd x y g n).1 /\ shape_ok (seed_cell rnd x y g n).1.
Proof.
  intros [Hv Hs]. unfold seed_cell, bind, random_random, ret.
  destruct (Qltb (rnd n) ALIVE_SEED_CHANCE); cbn [fst].
  - split; [apply cells_valid_set|apply shape_ok_set]; try done. right; by left.
  - destruct (Qltb (rnd (S n)) RESOURCE_SEED_CHANCE); cbn [fst]; [|done].
    split; [apply cells_valid_set|apply shape_ok_set]; try done. right; by right.
Qed.

Lemma write_log_values g w : In w (write_log g) -> valid_state w.2.
Proof.
  intros H. destruct w as [p v]. log_cases H; subst; cbn [snd]; unfold valid_state; auto.
Qed.

Lemma cells_valid_update_cells g : cells_valid g -> cells_valid (update_cells g).
Proof.
  rewrite update_cells_log. apply cells_valid_apply_writes, write_log_values.
Qed.

(** Claim C10.  Every cell of the grid [create_grid] returns is DEAD, ALIVE or RESOURCE,
    and [update_grid] returns such a grid when it is given one. *)
Theorem three_states_preserved :
  (forall rnd n,
     shape_ok (create_grid rnd n).1 /\ cells_valid (create_grid rnd n).1 /\
     forall x y, in_bounds x y = true ->
       valid_state (grid_get (create_grid rnd n).1 x y))
  /\ (forall rnd (g : grid) n,
        cells_valid g -> cells_valid (update_grid rnd g n).1)
  /\ (forall rnd (g : grid) n,
        shape_ok g -> cells_valid g ->
        forall x y, in_bounds x y = true ->
          valid_state (grid_get (update_grid rnd g n).1 x y)).
Proof.
  assert (Hupd : forall rnd (g : grid) n,
            cells_valid g -> cells_valid (update_grid rnd g n).1).
  { intros rnd g n Hv. unfold update_grid. rewrite spawn_new_resources_list.
    by apply cells_valid_spawn_list, cells_valid_update_cells. }
  split; [|split; [done|]].
  - intros rnd n.
    assert (H : cells_valid (create_grid rnd n).1 /\ shape_ok (create_grid rnd n).1).
    { rewrite create_grid_list. unfold seed_list.
      apply (for_each_m_inv (fun g : grid => cells_valid g /\ shape_ok g)).
      - intros q s k. apply seed_cell_inv.
      - split; [apply cells_valid_zeros|apply shape_ok_zeros]. }
    destruct H as [Hv Hs]. split; [done|]. split; [done|].
    intros x y Hb. by apply cells_valid_get.
  - intros rnd g n Hs Hv x y Hb. apply cells_valid_get; [by apply Hupd|done|].
    unfold update_grid. rewrite spawn_new_resources_list.
    by apply shape_ok_spawn_list, shape_ok_update_cells.
Qed.

(** ** The theorems at given grids *)

Ltac decided := apply (bool_decide_unpack _); vm_compute; exact I.
Ltac computed := vm_compute; reflexivity.
Ltac conjuncts := repeat match goal with |- _ /\ _ => split end.

Lemma blocked_mover_stays_alive_witness :
  (forall new_grid : grid, update_cell G_blocked 5 5 new_grid = new_grid)
  /\ grid_get (update_cells G_blocked) 5 5 = ALIVE
  /\ grid_get (update_grid draws_low G_blocked 0%nat).1 5 5 = ALIVE.
Proof.
  apply (blocked_mover_stays_alive G_blocked 5 5 5 8 draws_low 0%nat).
  - decided.
  - reflexivity.
  - computed.
  - computed.
  - right. vm_compute. discriminate.
Defined.

(** The live cell at (5,5) of [G_blocked] senses the resource at (5,8), its
    step (5,6) is taken, it has one live neighbour, and it is ALIVE in the
    grid returned. *)
Lemma blocked_mover_not_dead :
  grid_get G_blocked 5 5 = ALIVE
  /\ resource_in_proximity 5 5 G_blocked 3 = Some (5, 8)
  /\ grid_get G_blocked (5 + Z.sgn (5 - 5)) (5 + Z.sgn (8 - 5)) = ALIVE
  /\ count_neighbors 5 5 G_blocked = 1
  /\ grid_get (update_grid draws_high G_blocked 0%nat).1 5 5 = ALIVE
  /\ grid_get (update_grid draws_high G_blocked 0%nat).1 5 5 <> DEAD.
Proof.
  conjuncts; try computed. vm_compute. discriminate.
Qed.

Lemma mover_relocates_witness :
  grid_get (update_cells G_move) (5 + Z.sgn (5 - 5)) (5 + Z.sgn (8 - 5)) = ALIVE
  /\ grid_get (update_cells G_move) 5 5 = DEAD
  /\ grid_get (update_grid draws_high G_move 0%nat).1
       (5 + Z.sgn (5 - 5)) (5 + Z.sgn (8 - 5)) = ALIVE
  /\ grid_get (update_grid draws_high G_move 0%nat).1 5 5 =
       spawn_outcome draws_high (0 + draw_index (update_cells G_move) 5 5)%nat
  /\ (5 + Z.sgn (5 - 5), 5 + Z.sgn (8 - 5)) <> (5, 5)
  /\ Z.abs (Z.sgn (5 - 5)) <= 1 /\ Z.abs (Z.sgn (8 - 5)) <= 1.
Proof.
  apply (mover_relocates G_move 5 5 5 8 draws_high 0%nat).
  - decided.
  - reflexivity.
  - computed.
  - computed.
  - reflexivity.
  - computed.
Defined.

(** The live cell at (5,5) of [G_move] steps to the DEAD cell (5,6); with a
    draw below RESOURCE_SPAWN_CHANCE the cell it left is RESOURCE, not DEAD,
    in the grid returned. *)
Lemma mover_origin_not_dead :
  grid_get G_move 5 5 = ALIVE
  /\ resource_in_proximity 5 5 G_move 3 = Some (5, 8)
  /\ in_bounds (5 + Z.sgn (5 - 5)) (5 + Z.sgn (8 - 5)) = true
  /\ grid_get G_move (5 + Z.sgn (5 - 5)) (5 + Z.sgn (8 - 5)) = DEAD
  /\ grid_get (update_grid draws_low G_move 0%nat).1 5 6 = ALIVE
  /\ grid_get (update_grid draws_low G_move 0%nat).1 5 5 = RESOURCE
  /\ grid_get (update_grid draws_low G_move 0%nat).1 5 5 <> DEAD.
Proof.
  conjuncts; try computed. vm_compute. discriminate.
Qed.

Lemma enclosed_resource_removed_witness :
  (grid_get (update_cells G_enclosed) 5 5 = DEAD /\
   grid_get (update_grid draws_high G_enclosed 0%nat).1 5 5 =
     spawn_outcome draws_high (0 + draw_index (update_cells G_enclosed) 5 5)%nat)
  /\ (grid_get (update_cells G_open) 5 5 = RESOURCE /\
      grid_get (update_grid draws_high G_open 0%nat).1 5 5 = RESOURCE).
Proof.
  split.
  - apply (enclosed_resource_removed G_enclosed 5 5 draws_high 0%nat).
    + decided.
    + reflexivity.
    + computed.
    + repeat constructor; vm_compute; auto.
  - apply (enclosed_resource_removed G_open 5 5 draws_high 0%nat).
    + decided.
    + reflexivity.
    + computed.
    + apply Exists_cons_hd. computed.
Defined.

(** The resource at (5,5) of [G_enclosed] has its eight neighbours ALIVE;
    with a draw below RESOURCE_SPAWN_CHANCE it is RESOURCE, not DEAD, in the
    grid returned. *)
Lemma enclosed_resource_not_dead :
  grid_get G_enclosed 5 5 = RESOURCE
  /\ List.filter (holds G_enclosed ALIVE) (moore 5 5) = moore 5 5
  /\ check_resource_surrounded 5 5 G_enclosed = true
  /\ grid_get (update_grid draws_low G_enclosed 0%nat).1 5 5 = RESOURCE
  /\ grid_get (update_grid draws_low G_enclosed 0%nat).1 5 5 <> DEAD.
Proof.
  conjuncts; try computed. vm_compute. discriminate.
Qed.

Lemma classic_rules_without_resource_witness :
  (grid_get G_blinker 5 5 = ALIVE ->
     (count_neighbors 5 5 G_blinker < 2 \/ count_neighbors 5 5 G_blinker > 3 ->
        grid_get (update_cells G_blinker) 5 5 = DEAD /\
        grid_get (update_grid draws_high G_blinker 0%nat).1 5 5 =
          spawn_outcome draws_high (0 + draw_index (update_cells G_blinker) 5 5)%nat)
     /\ (count_neighbors 5 5 G_blinker = 2 \/ count_neighbors 5 5 G_blinker = 3 ->
           grid_get (update_cells G_blinker) 5 5 = ALIVE /\
           grid_get (update_grid draws_high G_blinker 0%nat).1 5 5 = ALIVE))
  /\ (grid_get G_blinker 5 5 = DEAD ->
        (count_neighbors 5 5 G_blinker = 3 ->
           grid_get (update_cells G_blinker) 5 5 = ALIVE /\
           grid_get (update_grid draws_high G_blinker 0%nat).1 5 5 = ALIVE)
        /\ (count_neighbors 5 5 G_blinker <> 3 ->
              grid_get (update_cells G_blinker) 5 5 = DEAD /\
              grid_get (update_grid draws_high G_blinker 0%nat).1 5 5 =
                spawn_outcome draws_high (0 + draw_index (update_cells G_blinker) 5 5)%nat)).
Proof.
  apply (classic_rules_without_resource G_blinker 5 5 draws_high 0%nat).
  - decided.
  - reflexivity.
  - apply resource_in_proximity_None. computed.
Defined.

(** The live cell at (5,5) of [G_lonely] has no resource within radius 3 and
    no live neighbour, and the DEAD cell (0,0) has no live neighbour either;
    with draws below RESOURCE_SPAWN_CHANCE both are RESOURCE in the grid
    returned, neither DEAD. *)
Lemma classic_rules_not_dead :
  grid_get G_lonely 5 5 = ALIVE
  /\ resource_in_proximity 5 5 G_lonely 3 = None
  /\ count_neighbors 5 5 G_lonely = 0
  /\ grid_get (update_grid draws_low G_lonely 0%nat).1 5 5 = RESOURCE
  /\ grid_get G_lonely 0 0 = DEAD
  /\ resource_in_proximity 0 0 G_lonely 3 = None
  /\ count_neighbors 0 0 G_lonely = 0
  /\ grid_get (update_grid draws_low G_lonely 0%nat).1 0 0 = RESOURCE.
Proof.
  conjuncts; computed.
Qed.

Lemma consume_branch_unreachable_witness :
  (5 + Z.sgn (5 - 5) =? 5) && (5 + Z.sgn (8 - 5) =? 8) = false
  /\ grid_get G_move 5 6 <> RESOURCE
  /\ grid_get (update_cells G_enclosed) 5 5 <> ALIVE
  /\ grid_get (update_grid draws_low G_enclosed 0%nat).1 5 5 <> ALIVE.
Proof.
  destruct consume_branch_unreachable as (Hbranch & Hland & Hkeep).
  split; [|split].
  - apply (Hbranch G_move 5 5 5 8); computed.
  - apply (Hland G_move 5 5 (5, 6)). computed.
  - apply (Hkeep G_enclosed 5 5 draws_low 0%nat).
    + decided.
    + reflexivity.
    + computed.
Defined.

Lemma spawn_touches_dead_only_witness :
  (grid_get G_move 5 5 <> DEAD ->
     grid_get (spawn_new_resources draws_low G_move 0%nat).1 5 5 = grid_get G_move 5 5)
  /\ (grid_get G_move 0 1 = DEAD ->
        ((draws_low (0 + draw_index G_move 0 1)%nat < RESOURCE_SPAWN_CHANCE)%Q ->
           grid_get (spawn_new_resources draws_low G_move 0%nat).1 0 1 = RESOURCE)
        /\ (~ (draws_low (0 + draw_index G_move 0 1)%nat < RESOURCE_SPAWN_CHANCE)%Q ->
              grid_get (spawn_new_resources draws_low G_move 0%nat).1 0 1 = DEAD))
  /\ (spawn_new_resources draws_low G_move 0%nat).2 = (0 + count_dead G_move coords)%nat.
Proof.
  destruct (spawn_touches_dead_only draws_low G_move 0) as (Hcell & _ & _ & Hdraws).
  - decided.
  - split; [|split; [|exact Hdraws]].
    + apply (Hcell 5 5). reflexivity.
    + apply (Hcell 0 1). reflexivity.
Defined.

Lemma update_grid_deterministic_witness :
  update_grid draws_low G_move 0%nat = update_grid draws_low' G_move 0%nat.
Proof.
  apply (update_grid_deterministic G_move G_move draws_low draws_low' 0%nat).
  - reflexivity.
  - intros i. reflexivity.
Defined.

Lemma three_states_preserved_witness :
  cells_valid (create_grid draws_high 0%nat).1
  /\ cells_valid (update_grid draws_low G_move 0%nat).1
  /\ valid_state (grid_get (update_grid draws_low G_move 0%nat).1 5 5).
Proof.
  destruct three_states_preserved as (Hinit & Hstep & Hcell).
  split; [apply Hinit|]. split.
  - apply Hstep. decided.
  - apply Hcell; [decided|decided|reflexivity].
Defined.

(** * Further properties of the code *)

(** ** The neighbourhood functions at the border and at small radii *)

Lemma in_bounds_out nx ny :
  ~ (0 <= nx < GRID_SIZE /\ 0 <= ny < GRID_SIZE) -> in_bounds nx ny = false.
Proof. intros H. apply not_true_is_false. by rewrite in_bounds_spec. Qed.

Lemma filter_length_mono {A : Type} (f f' : A -> bool) (l : list A) :
  (forall a, f a = true -> f' a = true) ->
  (length (List.filter f l) <= length (List.filter f' l))%nat.
Proof.
  intros H. induction l as [|a l IH]; cbn; [done|].
  destruct (f a) eqn:E.
  - rewrite (H a E). cbn. lia.
  - destruct (f' a); cbn; lia.
Qed.

Ltac count_rows :=
  repeat match goal with
         | |- context [if ?b then _ else _] => destruct b
         end; cbn [length]; lia.

(** X1.  [check_resource_surrounded x y g] holds exactly when every Moore
    neighbour of [(x, y)] inside the array is ALIVE or RESOURCE, and fails
    exactly when one of them is neither; neighbours outside the array are
    passed over, and neither the cell [(x, y)] itself nor any cell that is
    not a neighbour is looked at. *)
Theorem check_resource_surrounded_iff (x y : Z) (g : grid) :
  (check_resource_surrounded x y g = true <->
   Forall (fun q : Z * Z =>
             in_bounds q.1 q.2 = true ->
             grid_get g q.1 q.2 = ALIVE \/ grid_get g q.1 q.2 = RESOURCE)
          (moore x y))
  /\ (check_resource_surrounded x y g = false <->
      Exists (fun q : Z * Z =>
                in_bounds q.1 q.2 = true /\
                grid_get g q.1 q.2 <> ALIVE /\ grid_get g q.1 q.2 <> RESOURCE)
             (moore x y))
  /\ (forall g' : grid,
        (forall q, In q (moore x y) -> in_bounds q.1 q.2 = true ->
                   grid_get g' q.1 q.2 = grid_get g q.1 q.2) ->
        check_resource_surrounded x y g' = check_resource_surrounded x y g).
Proof.
  split; [apply check_resource_surrounded_spec|]. split.
  - rewrite <- not_true_iff_false, check_resource_surrounded_spec. split.
    + intros Hn. apply not_Forall_Exists in Hn; [|intros q; apply _].
      eapply Exists_impl; [exact Hn|]. intros q Hq. cbn in Hq.
      destruct (in_bounds q.1 q.2); [|by destruct Hq].
      split; [done|]. split; intros E; apply Hq; auto.
    + intros Hex Hall. apply Exists_exists in Hex as (q & Hq & Hb & Ha & Hr).
      rewrite Forall_forall in Hall. destruct (Hall q Hq Hb); done.
  - intros g' Hsame. apply eq_true_iff_eq.
    rewrite !check_resource_surrounded_spec, !Forall_forall.
    split; intros H q Hq Hb; specialize (H q Hq Hb);
      rewrite list_elem_of_In in Hq.
    + by rewrite <- (Hsame q Hq Hb).
    + by rewrite (Hsame q Hq Hb).
Qed.

Lemma check_resource_surrounded_iff_witness :
  check_resource_surrounded 5 5 (grid_set G_enclosed 5 5 DEAD) =
  check_resource_surrounded 5 5 G_enclosed.
Proof.
  destruct (check_resource_surrounded_iff 5 5 G_enclosed) as (_ & _ & Hdep).
  apply Hdep. intros q Hq _. cbn [moore In] in Hq.
  repeat (destruct Hq as [<-|Hq]; [vm_compute; reflexivity|]). destruct Hq.
Defined.

(** X2.  [count_neighbors] never counts more cells than [(x, y)] has Moore
    neighbours inside the array: at most 5 for a cell of the first or last
    row or column, at most 3 for a corner; there is no wrap-around. *)
Theorem count_neighbors_border (x y : Z) (g : grid) :
  (count_neighbors x y g <=
   Z.of_nat (length (List.filter (fun q : Z * Z => in_bounds q.1 q.2) (moore x y))))
  /\ (x = 0 \/ x = GRID_SIZE - 1 \/ y = 0 \/ y = GRID_SIZE - 1 ->
      count_neighbors x y g <= 5)
  /\ ((x = 0 \/ x = GRID_SIZE - 1) /\ (y = 0 \/ y = GRID_SIZE - 1) ->
      count_neighbors x y g <= 3).
Proof.
  assert (Hle : count_neighbors x y g <=
    Z.of_nat (length (List.filter (fun q : Z * Z => in_bounds q.1 q.2) (moore x y)))).
  { rewrite count_neighbors_filter. apply inj_le, filter_length_mono.
    intros q Hq. by apply holds_true in Hq as [Hb _]. }
  split; [done|]. unfold moore in Hle. cbn [List.filter fst snd] in Hle.
  unfold GRID_SIZE in *. split.
  - intros [ -> | [ -> | [ -> | -> ] ] ].
    + rewrite !(in_bounds_out (0 - 1)) in Hle by (unfold GRID_SIZE; lia).
      revert Hle. count_rows.
    + rewrite !(in_bounds_out (100 - 1 + 1)) in Hle by (unfold GRID_SIZE; lia).
      revert Hle. count_rows.
    + rewrite !(in_bounds_out _ (0 - 1)) in Hle by (unfold GRID_SIZE; lia).
      revert Hle. count_rows.
    + rewrite !(in_bounds_out _ (100 - 1 + 1)) in Hle by (unfold GRID_SIZE; lia).
      revert Hle. count_rows.
  - intros [ [ -> | -> ] [ -> | -> ] ].
    + rewrite !(in_bounds_out (0 - 1)), !(in_bounds_out _ (0 - 1)) in Hle
        by (unfold GRID_SIZE; lia).
      revert Hle. count_rows.
    + rewrite !(in_bounds_out (0 - 1)), !(in_bounds_out _ (100 - 1 + 1)) in Hle
        by (unfold GRID_SIZE; lia).
      revert Hle. count_rows.
    + rewrite !(in_bounds_out (100 - 1 + 1)), !(in_bounds_out _ (0 - 1)) in Hle
        by (unfold GRID_SIZE; lia).
      revert Hle. count_rows.
    + rewrite !(in_bounds_out (100 - 1 + 1)), !(in_bounds_out _ (100 - 1 + 1)) in Hle
        by (unfold GRID_SIZE; lia).
      revert Hle. count_rows.
Qed.

Lemma count_neighbors_border_witness :
  count_neighbors 0 7 G_move <= 5 /\ count_neighbors 0 0 G_move <= 3.
Proof.
  destruct (count_neighbors_border 0 7 G_move) as (_ & Hedge & _).
  destruct (count_neighbors_border 0 0 G_move) as (_ & _ & Hcorner).
  split; [apply Hedge; by left|apply Hcorner; split; by left].
Defined.

(** X3.  [resource_in_proximity] with a negative range looks at no cell and
    finds nothing; with range 0 it looks at [(x, y)] alone; and what is found
    within a range is not lost within a wider one (the resource returned may
    be another). *)
Theorem resource_in_proximity_ranges (x y : Z) (g : grid) :
  (forall r, r < 0 -> resource_in_proximity x y g r = None)
  /\ resource_in_proximity x y g 0 =
       (if holds g RESOURCE (x, y) then Some (x, y) else None)
  /\ (forall r r', r <= r' ->
        resource_in_proximity x y g r <> None ->
        resource_in_proximity x y g r' <> None).
Proof.
  split; [|split].
  - intros r Hr. apply resource_in_proximity_None. intros d [H1 H2]. lia.
  - destruct (holds g RESOURCE (x, y)) eqn:Hh.
    + replace (Some (x, y)) with (Some (x + (0, 0).1, y + (0, 0).2))
        by (cbn; f_equal; f_equal; lia).
      apply resource_in_proximity_first. split; [unfold in_reach; cbn; lia|].
      cbn [fst snd]. rewrite !Z.add_0_r. split; [done|].
      intros d' [H1 H2] Hlt. unfold lex_lt in Hlt. cbn [fst snd] in Hlt. lia.
    + apply resource_in_proximity_None. intros [dx dy] [H1 H2]. cbn [fst snd] in *.
      replace dx with 0 by lia. replace dy with 0 by lia. by rewrite !Z.add_0_r.
  - intros r r' Hrr Hsome Hnone. apply Hsome.
    rewrite resource_in_proximity_None in Hnone. apply resource_in_proximity_None.
    intros d [H1 H2]. apply Hnone. unfold in_reach. lia.
Qed.

Lemma resource_in_proximity_ranges_witness :
  resource_in_proximity 5 5 G_move (-1) = None
  /\ resource_in_proximity 5 5 G_move 4 <> None.
Proof.
  destruct (resource_in_proximity_ranges 5 5 G_move) as (Hneg & _ & Hwider).
  split.
  - apply Hneg. lia.
  - apply (Hwider 3 4); [lia|]. vm_compute. discriminate.
Defined.

(** ** Movement *)

(** X4.  The step of a cell inside the array towards a resource it senses
    never leaves the array, whatever the range: the bounds half of the guard
    of the move always holds, and the guard is the test that the target is
    DEAD. *)
Theorem step_stays_in_bounds (g : grid) (x y r rx ry : Z) :
  in_bounds x y = true ->
  resource_in_proximity x y g r = Some (rx, ry) ->
  in_bounds (x + Z.sgn (rx - x)) (y + Z.sgn (ry - y)) = true
  /\ in_bounds (x + Z.sgn (rx - x)) (y + Z.sgn (ry - y)) &&
       (grid_get g (x + Z.sgn (rx - x)) (y + Z.sgn (ry - y)) =? DEAD) =
     (grid_get g (x + Z.sgn (rx - x)) (y + Z.sgn (ry - y)) =? DEAD).
Proof.
  intros Hb Hrip. apply sensed_is_resource in Hrip as (Hbr & _).
  assert (H : in_bounds (x + Z.sgn (rx - x)) (y + Z.sgn (ry - y)) = true).
  { apply in_bounds_spec in Hb, Hbr. apply in_bounds_spec.
    pose proof (Z.sgn_spec (rx - x)). pose proof (Z.sgn_spec (ry - y)). lia. }
  by rewrite H.
Qed.

Lemma step_stays_in_bounds_witness :
  in_bounds (0 + Z.sgn (0 - 0)) (1 + Z.sgn (0 - 1)) = true
  /\ in_bounds (0 + Z.sgn (0 - 0)) (1 + Z.sgn (0 - 1)) &&
       (grid_get (put [((0, 0), RESOURCE)]) (0 + Z.sgn (0 - 0)) (1 + Z.sgn (0 - 1))
          =? DEAD) =
     (grid_get (put [((0, 0), RESOURCE)]) (0 + Z.sgn (0 - 0)) (1 + Z.sgn (0 - 1))
        =? DEAD).
Proof.
  apply (step_stays_in_bounds (put [((0, 0), RESOURCE)]) 0 1 3 0 0).
  - reflexivity.
  - vm_compute; reflexivity.
Defined.

(** X5.  A cell that moves ends exactly one step away from where it was, one
    step nearer to the resource it sensed, and not on it: the resource was at
    distance 2 or 3 and is at distance 1 or 2 of the target. *)
Theorem step_approaches_resource (g : grid) (x y rx ry : Z) (t : Z * Z) :
  move_target g x y = Some t ->
  resource_in_proximity x y g 3 = Some (rx, ry) ->
  cheb t (x, y) = 1
  /\ cheb (rx, ry) t = cheb (rx, ry) (x, y) - 1
  /\ 1 <= cheb (rx, ry) t <= 2.
Proof.
  intros Hm Hrip.
  apply move_target_Some in Hm as (Ha & Hbt & Hd & rx' & ry' & Hrip' & ->).
  rewrite Hrip in Hrip'. injection Hrip' as <- <-.
  apply sensed_is_resource in Hrip as (_ & Hr & Hx & Hy).
  cbn [fst snd] in *.
  assert (Hne : ~ (x + Z.sgn (rx - x) = rx /\ y + Z.sgn (ry - y) = ry)).
  { intros [Ex Ey]. rewrite Ex, Ey in Hd. states. }
  unfold cheb. cbn [fst snd]. clear Ha Hbt Hd Hr.
  destruct (Z.sgn_spec (rx - x)) as [[? Ex]|[[? Ex]|[? Ex]]],
           (Z.sgn_spec (ry - y)) as [[? Ey]|[[? Ey]|[? Ey]]];
    rewrite Ex, Ey in *; lia.
Qed.

Lemma step_approaches_resource_witness :
  cheb (5, 6) (5, 5) = 1
  /\ cheb (5, 8) (5, 6) = cheb (5, 8) (5, 5) - 1
  /\ 1 <= cheb (5, 8) (5, 6) <= 2.
Proof.
  apply (step_approaches_resource G_move 5 5 5 8 (5, 6)); vm_compute; reflexivity.
Defined.

(** X6.  A live cell whose sensed resource is a Moore neighbour would step
    onto it; the cell of a resource is never DEAD, so the live cell does not
    move and is ALIVE in the grid returned, whatever its live neighbours. *)
Theorem adjacent_resource_freezes
    (g : grid) (x y rx ry : Z) (rnd : nat -> Q) (n : nat) :
  shape_ok g -> in_bounds x y = true -> grid_get g x y = ALIVE ->
  resource_in_proximity x y g 3 = Some (rx, ry) ->
  cheb (rx, ry) (x, y) <= 1 ->
  (x + Z.sgn (rx - x), y + Z.sgn (ry - y)) = (rx, ry)
  /\ move_target g x y = None
  /\ grid_get (update_cells g) x y = ALIVE
  /\ grid_get (update_grid rnd g n).1 x y = ALIVE.
Proof.
  intros Hs Hb Ha Hrip Hnear.
  pose proof (sensed_is_resource _ _ _ _ _ _ Hrip) as (_ & Hr & _).
  assert (Et : (x + Z.sgn (rx - x), y + Z.sgn (ry - y)) = (rx, ry)).
  { unfold cheb in Hnear. cbn [fst snd] in Hnear.
    pose proof (Z.sgn_spec (rx - x)). pose proof (Z.sgn_spec (ry - y)).
    f_equal; lia. }
  injection Et as Ex Ey.
  assert (Hm : move_target g x y = None).
  { apply (move_target_blocked g x y rx ry Hrip). right. rewrite Ex, Ey. states. }
  assert (Hu : grid_get (update_cells g) x y = ALIVE).
  { apply update_cells_blocked; [done..|congruence|done]. }
  split; [by rewrite Ex, Ey|]. split; [done|]. split; [done|].
  apply update_grid_keeps; [done..|states].
Qed.

Lemma adjacent_resource_freezes_witness :
  (5 + Z.sgn (6 - 5), 5 + Z.sgn (6 - 5)) = (6, 6)
  /\ move_target G_adjacent 5 5 = None
  /\ grid_get (update_cells G_adjacent) 5 5 = ALIVE
  /\ grid_get (update_grid draws_low G_adjacent 0%nat).1 5 5 = ALIVE.
Proof.
  apply (adjacent_resource_freezes G_adjacent 5 5 6 6 draws_low 0%nat).
  - decided.
  - reflexivity.
  - computed.
  - computed.
  - vm_compute. discriminate.
Defined.

(** ** Births *)

Lemma mover_is_neighbour g qx qy x y :
  move_target g qx qy = Some (x, y) -> In (qx, qy) (moore x y).
Proof.
  intros Hm.
  apply move_target_Some in Hm as (Ha & _ & Hd & rx & ry & _ & [= -> ->]).
  cbn [fst snd] in Hd.
  pose proof (Z.sgn_spec (rx - qx)) as Hsx. pose proof (Z.sgn_spec (ry - qy)) as Hsy.
  assert (Hne : ~ (Z.sgn (rx - qx) = 0 /\ Z.sgn (ry - qy) = 0)).
  { intros [E1 E2]. rewrite E1, E2, !Z.add_0_r in Hd. states. }
  unfold moore. cbn [In].
  destruct Hsx as [[_ Ex]|[[_ Ex]|[_ Ex]]], Hsy as [[_ Ey]|[[_ Ey]|[_ Ey]]];
    rewrite Ex, Ey in *; try (exfalso; apply Hne; done);
    repeat first [left; f_equal; lia | right].
Qed.

Lemma live_neighbour_counted g x y q :
  In q (moore x y) -> holds g ALIVE q = true -> 1 <= count_neighbors x y g.
Proof.
  intros Hq Hh. rewrite count_neighbors_filter.
  assert (Hin : In q (List.filter (holds g ALIVE) (moore x y)))
    by (by apply filter_In).
  destruct (List.filter (holds g ALIVE) (moore x y)); [done|]. cbn [length]. lia.
Qed.

(** X7.  A DEAD cell is ALIVE after the two deterministic loops exactly when
    it has 3 live neighbours or a live Moore neighbour steps onto it, and it
    is DEAD after them otherwise. *)
Theorem dead_cell_next_state (g : grid) (x y : Z) :
  shape_ok g -> in_bounds x y = true -> grid_get g x y = DEAD ->
  (grid_get (update_cells g) x y = ALIVE <->
   count_neighbors x y g = 3 \/
   Exists (fun q : Z * Z =>
             in_bounds q.1 q.2 = true /\ move_target g q.1 q.2 = Some (x, y))
          (moore x y))
  /\ (grid_get (update_cells g) x y = ALIVE \/ grid_get (update_cells g) x y = DEAD).
Proof.
  intros Hs Hb Hd.
  destruct (decide (count_neighbors x y g = 3)) as [H3|H3].
  { pose proof (update_cells_birth g x y Hs Hb Hd H3). split; [|by left].
    split; auto. }
  destruct (decide (Exists (fun q : Z * Z =>
              in_bounds q.1 q.2 = true /\ move_target g q.1 q.2 = Some (x, y))
              (moore x y))) as [Hex|Hnex].
  { pose proof Hex as Hex'. apply Exists_exists in Hex' as ([qx qy] & _ & Hq & Hm).
    cbn [fst snd] in *.
    destruct (update_cells_moved g qx qy (x, y) Hs Hq Hm) as [_ Harr].
    cbn [fst snd] in Harr. split; [|by left]. split; auto. }
  assert (Hu : grid_get (update_cells g) x y = DEAD).
  { apply update_cells_dead; [done..|]. intros qx qy Hq Hm. apply Hnex.
    apply Exists_exists. exists (qx, qy). split; [|done].
    apply list_elem_of_In. by apply (mover_is_neighbour g). }
  split; [|by right]. split.
  - intros E. rewrite Hu in E. states.
  - intros [?|?]; done.
Qed.

Lemma dead_cell_next_state_witness :
  (grid_get (update_cells G_move) 5 6 = ALIVE <->
   count_neighbors 5 6 G_move = 3 \/
   Exists (fun q : Z * Z =>
             in_bounds q.1 q.2 = true /\ move_target G_move q.1 q.2 = Some (5, 6))
          (moore 5 6))
  /\ (grid_get (update_cells G_move) 5 6 = ALIVE \/
      grid_get (update_cells G_move) 5 6 = DEAD).
Proof.
  apply (dead_cell_next_state G_move 5 6).
  - decided.
  - reflexivity.
  - computed.
Defined.

(** ** Values that are none of the three states *)

Lemma update_cells_foreign g x y :
  shape_ok g -> in_bounds x y = true ->
  grid_get g x y <> DEAD -> grid_get g x y <> ALIVE -> grid_get g x y <> RESOURCE ->
  grid_get (update_cells g) x y = grid_get g x y.
Proof.
  intros Hs Hb Hd Ha Hr. apply update_cells_get; [done..| |by right].
  intros v' H. log_cases H; subst; done.
Qed.

(** X8.  A cell holding a value that is none of DEAD, ALIVE and RESOURCE is
    left as it is by [update_grid]: neither loop writes it, no cell steps
    onto it and no resource spawns on it. *)
Theorem foreign_value_kept (g : grid) (x y : Z) (rnd : nat -> Q) (n : nat) :
  shape_ok g -> in_bounds x y = true ->
  grid_get g x y <> DEAD -> grid_get g x y <> ALIVE -> grid_get g x y <> RESOURCE ->
  grid_get (update_cells g) x y = grid_get g x y
  /\ grid_get (update_grid rnd g n).1 x y = grid_get g x y.
Proof.
  intros Hs Hb Hd Ha Hr.
  pose proof (update_cells_foreign g x y Hs Hb Hd Ha Hr) as Hu.
  split; [done|]. by apply update_grid_keeps.
Qed.

Lemma foreign_value_kept_witness :
  grid_get (update_cells G_odd) 5 5 = grid_get G_odd 5 5
  /\ grid_get (update_grid draws_low G_odd 0%nat).1 5 5 = grid_get G_odd 5 5.
Proof.
  apply (foreign_value_kept G_odd 5 5 draws_low 0%nat).
  - decided.
  - reflexivity.
  - vm_compute. discriminate.
  - vm_compute. discriminate.
  - vm_compute. discriminate.
Defined.

(** ** Extinction *)

Lemma grid_get_Forall (P : Z -> Prop) (g : grid) x y :
  shape_ok g -> Forall (Forall P) g -> in_bounds x y = true -> P (grid_get g x y).
Proof.
  intros Hs Hg Hb. apply in_bounds_spec in Hb as [Hx Hy].
  destruct (shape_ok_row g x Hs Hx) as (row & Hrow & Hlen).
  unfold grid_get. rewrite Hrow.
  destruct (lookup_lt_is_Some_2 row (Z.to_nat y)) as [v Hv]; [lia|].
  rewrite Hv. rewrite Forall_forall in Hg.
  assert (Hr : Forall P row) by (apply Hg; eapply list_elem_of_lookup_2; eauto).
  rewrite Forall_forall in Hr. apply Hr. eapply list_elem_of_lookup_2; eauto.
Qed.

(** X9.  Nothing comes alive away from life: a DEAD cell without a live
    neighbour is DEAD after the two deterministic loops, and a grid without a
    live cell is given back without one by [update_grid], resources being all
    that can appear. *)
Theorem no_life_without_life (g : grid) (rnd : nat -> Q) (n : nat) :
  shape_ok g ->
  (forall x y, in_bounds x y = true -> grid_get g x y = DEAD ->
     count_neighbors x y g = 0 -> grid_get (update_cells g) x y = DEAD)
  /\ ((forall x y, in_bounds x y = true -> grid_get g x y <> ALIVE) ->
      forall x y, in_bounds x y = true ->
        grid_get (update_cells g) x y <> ALIVE /\
        grid_get (update_grid rnd g n).1 x y <> ALIVE).
Proof.
  intros Hs.
  assert (Hlocal : forall x y, in_bounds x y = true -> grid_get g x y = DEAD ->
            count_neighbors x y g = 0 -> grid_get (update_cells g) x y = DEAD).
  { intros x y Hb Hd H0. apply update_cells_dead; [done..|lia|].
    intros qx qy Hq Hm.
    pose proof (mover_is_neighbour g qx qy x y Hm) as Hin.
    apply move_target_Some in Hm as (Ha & _).
    assert (1 <= count_neighbors x y g); [|lia].
    apply (live_neighbour_counted g x y (qx, qy) Hin). by apply holds_true. }
  split; [done|].
  intros Hnone x y Hb.
  assert (Hu : grid_get (update_cells g) x y <> ALIVE).
  { destruct (decide (grid_get g x y = DEAD)) as [Hd|Hd].
    - rewrite Hlocal; [states|done..|].
      rewrite count_neighbors_filter.
      replace (List.filter (holds g ALIVE) (moore x y)) with (@nil (Z * Z)); [done|].
      symmetry. induction (moore x y) as [|q l IH]; [done|]. cbn [List.filter].
      destruct (holds g ALIVE q) eqn:Hh; [|done].
      apply holds_true in Hh as [Hq Ha]. by destruct (Hnone q.1 q.2 Hq).
    - destruct (decide (grid_get g x y = RESOURCE)) as [Hr|Hr].
      + rewrite update_cells_resource by done.
        destruct (check_resource_surrounded x y g); states.
      + rewrite update_cells_foreign; auto. }
  split; [done|]. rewrite update_grid_get by done.
  destruct (_ && _); [states|done].
Qed.

Lemma no_life_without_life_witness :
  grid_get (update_cells G_move) 50 50 = DEAD
  /\ grid_get (update_grid draws_low G_tie 0%nat).1 3 3 <> ALIVE.
Proof.
  destruct (no_life_without_life G_move draws_low 0%nat) as [Hlocal _]; [decided|].
  destruct (no_life_without_life G_tie draws_low 0%nat) as [_ Hglobal]; [decided|].
  split.
  - apply Hlocal; computed.
  - apply Hglobal; [|reflexivity].
    intros x y Hb.
    apply (grid_get_Forall (fun v => v <> ALIVE)); [decided|decided|done].
Defined.

(** ** The order of the two deterministic loops *)

Lemma write_log_consistent g p v v' :
  In (p, v) (write_log g) -> In (p, v') (write_log g) -> v = v'.
Proof.
  intros H H'. log_cases H; log_cases H'; subst; try done; try states;
    repeat match goal with
           | Hr : resource_in_proximity _ _ _ 3 = None |- _ =>
               apply move_target_None_rip in Hr
           end; congruence.
Qed.

(** Grids of the right shape with the same cells are the same grid. *)
Lemma grid_ext (g1 g2 : grid) :
  shape_ok g1 -> shape_ok g2 ->
  (forall x y, in_bounds x y = true -> grid_get g1 x y = grid_get g2 x y) ->
  g1 = g2.
Proof.
  intros Hs1 Hs2 Hget. apply list_eq. intros i.
  destruct (decide (i < Z.to_nat GRID_SIZE)%nat) as [Hi|Hi].
  - assert (Hx : 0 <= Z.of_nat i < GRID_SIZE) by lia.
    destruct (shape_ok_row g1 _ Hs1 Hx) as (r1 & Hr1 & Hl1).
    destruct (shape_ok_row g2 _ Hs2 Hx) as (r2 & Hr2 & Hl2).
    rewrite Nat2Z.id in Hr1, Hr2. rewrite Hr1, Hr2. f_equal.
    apply list_eq. intros j.
    destruct (decide (j < Z.to_nat GRID_SIZE)%nat) as [Hj|Hj].
    + assert (Hb : in_bounds (Z.of_nat i) (Z.of_nat j) = true)
        by (apply in_bounds_spec; lia).
      specialize (Hget _ _ Hb). unfold grid_get in Hget.
      rewrite !Nat2Z.id, Hr1, Hr2 in Hget.
      destruct (lookup_lt_is_Some_2 r1 j) as [v1 Hv1]; [lia|].
      destruct (lookup_lt_is_Some_2 r2 j) as [v2 Hv2]; [lia|].
      rewrite Hv1, Hv2 in *. by f_equal.
    + rewrite !lookup_ge_None_2 by lia. done.
  - destruct Hs1 as [Hl1 _], Hs2 as [Hl2 _]. rewrite !lookup_ge_None_2 by lia. done.
Qed.

Lemma apply_writes_same_writes ws ws' g x y :
  shape_ok g -> in_bounds x y = true ->
  (forall w, In w ws <-> In w ws') ->
  (forall w, In w ws -> in_bounds w.1.1 w.1.2 = true) ->
  (forall v v', In ((x, y), v) ws -> In ((x, y), v') ws -> v = v') ->
  grid_get (apply_writes ws g) x y = grid_get (apply_writes ws' g) x y.
Proof.
  intros Hs Hb Hsame Hin Hcons.
  assert (Hin' : forall w, In w ws' -> in_bounds w.1.1 w.1.2 = true)
    by (intros w Hw; apply Hin, Hsame, Hw).
  destruct (decide (Exists (fun w : write => w.1 = (x, y)) ws)) as [Hex|Hnex].
  - apply Exists_exists in Hex as ([p v] & Hw & E). cbn [fst] in E. subst p.
    apply list_elem_of_In in Hw.
    assert (Hv : forall v', In ((x, y), v') ws -> v' = v)
      by (intros v' Hv'; by apply (Hcons v' v)).
    rewrite (apply_writes_get ws g x y v) by (done || by left).
    rewrite (apply_writes_get ws' g x y v); [done..| |].
    + intros v' Hv'. by apply Hv, Hsame.
    + left. by apply Hsame.
  - assert (Hno : forall v', ~ In ((x, y), v') ws).
    { intros v' Hv'. apply Hnex, Exists_exists. exists ((x, y), v').
      split; [by apply list_elem_of_In|done]. }
    rewrite (apply_writes_get ws g x y (grid_get g x y));
      [|done..|intros v' Hv'; by destruct (Hno v')|by right].
    rewrite (apply_writes_get ws' g x y (grid_get g x y)); [done..| |by right].
    intros v' Hv'. apply Hsame in Hv'. by destruct (Hno v').
Qed.

Lemma sweep_writes swap l1 l2 g :
  sweep swap l1 l2 g =
  apply_writes (if swap
                then flat_map (update_writes g) l2 ++ flat_map (remove_writes g) l1
                else flat_map (remove_writes g) l1 ++ flat_map (update_writes g) l2) g.
Proof.
  unfold sweep.
  assert (Hr : forall s, fold_left (fun s (q : Z * Z) => remove_cell g q.1 q.2 s) l1 s =
                         apply_writes (flat_map (remove_writes g) l1) s).
  { intros s. rewrite <- apply_writes_flat_map. apply fold_left_agree.
    intros s' [a b]. apply remove_cell_writes. }
  assert (Hu : forall s, fold_left (fun s (q : Z * Z) => update_cell g q.1 q.2 s) l2 s =
                         apply_writes (flat_map (update_writes g) l2) s).
  { intros s. rewrite <- apply_writes_flat_map. apply fold_left_agree.
    intros s' [a b]. apply update_cell_writes. }
  destruct swap; rewrite Hr, Hu, apply_writes_app; done.
Qed.

(** X10.  The grid the two deterministic loops produce depends neither on the
    order in which each loop visits the cells nor on which loop runs first:
    visiting every cell of the array, in any order and any number of times,
    gives the grid of [update_grid]'s own loops. *)
Theorem sweep_order_irrelevant (g : grid) (swap : bool) (l1 l2 : list (Z * Z)) :
  shape_ok g ->
  (forall q, In q l1 <-> in_bounds q.1 q.2 = true) ->
  (forall q, In q l2 <-> in_bounds q.1 q.2 = true) ->
  sweep swap l1 l2 g = update_cells g.
Proof.
  intros Hs H1 H2.
  assert (Hc : forall q : Z * Z, In q coords <-> in_bounds q.1 q.2 = true)
    by (intros [a b]; apply in_coords).
  rewrite sweep_writes, update_cells_log.
  apply grid_ext; [by apply shape_ok_apply_writes..|].
  intros x y Hb. symmetry. apply apply_writes_same_writes; try done.
  - intros w. unfold write_log.
    destruct swap; rewrite !in_app_iff, !in_flat_map;
      setoid_rewrite Hc; setoid_rewrite H1; setoid_rewrite H2; tauto.
  - apply write_log_in_bounds.
  - intros v v'. apply write_log_consistent.
Qed.

Lemma sweep_order_irrelevant_witness :
  sweep true (rev coords) (coords ++ coords) G_move = update_cells G_move.
Proof.
  apply (sweep_order_irrelevant G_move true (rev coords) (coords ++ coords)).
  - decided.
  - intros [a b]. rewrite <- in_rev. apply in_coords.
  - intros [a b]. rewrite in_app_iff, in_coords. tauto.
Defined.

(** ** Seeding *)

Lemma seed_cell_grid rnd x y g n :
  (seed_cell rnd x y g n).1 =
  if Qltb (rnd n) ALIVE_SEED_CHANCE then grid_set g x y ALIVE
  else if Qltb (rnd (S n)) RESOURCE_SEED_CHANCE then grid_set g x y RESOURCE
  else g.
Proof.
  unfold seed_cell, bind, random_random, ret.
  destruct (Qltb (rnd n) ALIVE_SEED_CHANCE); [done|].
  by destruct (Qltb (rnd (S n)) RESOURCE_SEED_CHANCE).
Qed.

Lemma seed_cell_draws rnd x y g n : (seed_cell rnd x y g n).2 = seed_next rnd n.
Proof.
  unfold seed_cell, seed_next, bind, random_random, ret.
  destruct (Qltb (rnd n) ALIVE_SEED_CHANCE); [done|].
  by destruct (Qltb (rnd (S n)) RESOURCE_SEED_CHANCE).
Qed.

Lemma seed_cell_other rnd x y g n x' y' :
  in_bounds x y = true -> in_bounds x' y' = true -> (x, y) <> (x', y') ->
  grid_get (seed_cell rnd x y g n).1 x' y' = grid_get g x' y'.
Proof.
  intros Hb Hb' Hne. rewrite seed_cell_grid.
  destruct (Qltb _ _); [by apply grid_get_set_ne|].
  destruct (Qltb _ _); [by apply grid_get_set_ne|done].
Qed.

Lemma seed_cell_own rnd x y g n :
  shape_ok g -> in_bounds x y = true -> grid_get g x y = DEAD ->
  grid_get (seed_cell rnd x y g n).1 x y = seed_state rnd n.
Proof.
  intros Hs Hb Hd. rewrite seed_cell_grid. unfold seed_state.
  destruct (Qltb _ _); [by apply grid_get_set_eq|].
  destruct (Qltb _ _); [by apply grid_get_set_eq|done].
Qed.

Lemma shape_ok_seed_cell rnd x y g n :
  shape_ok g -> shape_ok (seed_cell rnd x y g n).1.
Proof.
  intros Hs. rewrite seed_cell_grid.
  destruct (Qltb _ _); [by apply shape_ok_set|].
  destruct (Qltb _ _); [by apply shape_ok_set|done].
Qed.

Lemma seed_list_cons rnd q l g n :
  seed_list rnd (q :: l) g n =
  seed_list rnd l (seed_cell rnd q.1 q.2 g n).1 (seed_next rnd n).
Proof.
  unfold seed_list. cbn [for_each_m]. unfold bind at 1.
  rewrite <- (seed_cell_draws rnd q.1 q.2 g n).
  by destruct (seed_cell rnd q.1 q.2 g n).
Qed.

Lemma seed_list_notin rnd l g n x y :
  in_bounds x y = true ->
  (forall q, In q l -> in_bounds q.1 q.2 = true) ->
  ~ In (x, y) l ->
  grid_get (seed_list rnd l g n).1 x y = grid_get g x y.
Proof.
  intros Hb. revert g n. induction l as [|[a b] l IH]; intros g n Hl Hnin; [done|].
  rewrite seed_list_cons. cbn [fst snd]. rewrite IH.
  - apply seed_cell_other; [apply (Hl (a, b)); by left|done|].
    intros E. apply Hnin. by left.
  - intros q Hq. apply Hl. by right.
  - intros Hin. apply Hnin. by right.
Qed.

Lemma seed_list_in rnd l g n x y :
  shape_ok g -> NoDup l ->
  (forall q, In q l -> in_bounds q.1 q.2 = true) ->
  In (x, y) l -> grid_get g x y = DEAD ->
  grid_get (seed_list rnd l g n).1 x y = seed_state rnd (seed_index rnd l n (x, y)).
Proof.
  revert g n. induction l as [|[a b] l IH]; intros g n Hs Hnd Hl Hin Hd; [done|].
  apply NoDup_cons in Hnd as [Hnin Hnd]. rewrite list_elem_of_In in Hnin.
  assert (Hab : in_bounds a b = true) by (apply (Hl (a, b)); by left).
  assert (Hl' : forall q, In q l -> in_bounds q.1 q.2 = true)
    by (intros; apply Hl; by right).
  rewrite seed_list_cons. cbn [fst snd seed_index].
  destruct (decide ((a, b) = (x, y))) as [[= -> ->]|Hne].
  - rewrite seed_list_notin by done. by apply seed_cell_own.
  - destruct Hin as [Hin|Hin]; [done|].
    assert (Hxy : in_bounds x y = true) by (by apply (Hl' (x, y))).
    apply IH; try done.
    + by apply shape_ok_seed_cell.
    + by rewrite seed_cell_other.
Qed.

Lemma seed_index_cons rnd q l n p :
  q <> p -> seed_index rnd (q :: l) n p = seed_index rnd l (seed_next rnd n) p.
Proof. intros Hne. cbn [seed_index]. by destruct (decide (q = p)). Qed.

Lemma seed_list_draws rnd l g n :
  NoDup l ->
  ((seed_list rnd l g n).2 +
   length (List.filter (fun q => Qltb (rnd (seed_index rnd l n q)) ALIVE_SEED_CHANCE) l)
   = n + 2 * length l)%nat.
Proof.
  revert g n. induction l as [|q l IH]; intros g n Hnd.
  - cbn. lia.
  - apply NoDup_cons in Hnd as [Hnin Hnd]. rewrite list_elem_of_In in Hnin.
    rewrite seed_list_cons. cbn [List.filter length seed_index].
    destruct (decide (q = q)); [|done].
    rewrite (filter_ext_in'
               (fun p => Qltb (rnd (if decide (q = p) then n
                                    else seed_index rnd l (seed_next rnd n) p))
                           ALIVE_SEED_CHANCE)
               (fun p => Qltb (rnd (seed_index rnd l (seed_next rnd n) p))
                           ALIVE_SEED_CHANCE)).
    + specialize (IH (seed_cell rnd q.1 q.2 g n).1 (seed_next rnd n) Hnd).
      unfold seed_next in *.
      destruct (Qltb (rnd n) ALIVE_SEED_CHANCE); cbn [length]; lia.
    + intros p Hp. destruct (decide (q = p)) as [->|]; [done|done].
Qed.

Lemma seed_state_alive rnd i :
  (seed_state rnd i =? ALIVE) = Qltb (rnd i) ALIVE_SEED_CHANCE.
Proof.
  unfold seed_state. destruct (Qltb (rnd i) _); [done|]. by destruct (Qltb _ _).
Qed.

Lemma create_grid_wellformed rnd n :
  cells_valid (create_grid rnd n).1 /\ shape_ok (create_grid rnd n).1.
Proof.
  rewrite create_grid_list. unfold seed_list.
  apply (for_each_m_inv (fun g : grid => cells_valid g /\ shape_ok g)).
  - intros q s k. apply seed_cell_inv.
  - split; [apply cells_valid_zeros|apply shape_ok_zeros].
Qed.

Lemma grid_get_zeros x y : grid_get np_zeros x y = DEAD.
Proof.
  unfold grid_get, np_zeros.
  destruct (replicate _ _ !! Z.to_nat x) as [row|] eqn:E; [|done].
  apply lookup_replicate in E as [-> _].
  destruct (replicate _ _ !! Z.to_nat y) as [v|] eqn:E'; [|done].
  by apply lookup_replicate in E' as [-> _].
Qed.

Lemma length_coords : Z.of_nat (length coords) = GRID_SIZE * GRID_SIZE.
Proof. vm_compute. reflexivity. Qed.

(** X11.  In the grid [create_grid] returns, a cell is ALIVE when its first
    draw is below 0.10, RESOURCE when that draw is not and its second draw is
    below 0.001, and DEAD otherwise; the rank of its first draw is found by
    counting one draw for every earlier cell that came out ALIVE and two for
    every other.  So the draws taken and the cells that came out ALIVE number
    twice the cells together, and every cell takes one draw or two. *)
Theorem create_grid_cells (rnd : nat -> Q) (n : nat) :
  (forall x y, in_bounds x y = true ->
     grid_get (create_grid rnd n).1 x y =
     seed_state rnd (seed_index rnd coords n (x, y)))
  /\ Z.of_nat (create_grid rnd n).2 +
     Z.of_nat (length (List.filter (holds (create_grid rnd n).1 ALIVE) coords))
     = Z.of_nat n + 2 * (GRID_SIZE * GRID_SIZE)
  /\ Z.of_nat n + GRID_SIZE * GRID_SIZE <= Z.of_nat (create_grid rnd n).2
       <= Z.of_nat n + 2 * (GRID_SIZE * GRID_SIZE).
Proof.
  assert (Hc : forall q : Z * Z, In q coords -> in_bounds q.1 q.2 = true)
    by (intros [a b]; apply in_coords).
  assert (Hcell : forall x y, in_bounds x y = true ->
     grid_get (create_grid rnd n).1 x y =
     seed_state rnd (seed_index rnd coords n (x, y))).
  { intros x y Hb. rewrite create_grid_list.
    apply seed_list_in; [apply shape_ok_zeros|apply NoDup_coords|done| |].
    - by apply in_coords.
    - apply grid_get_zeros. }
  assert (Hdraws : Z.of_nat (create_grid rnd n).2 +
     Z.of_nat (length (List.filter (holds (create_grid rnd n).1 ALIVE) coords))
     = Z.of_nat n + 2 * (GRID_SIZE * GRID_SIZE)).
  { rewrite (filter_ext_in' _
               (fun q => Qltb (rnd (seed_index rnd coords n q)) ALIVE_SEED_CHANCE)).
    - rewrite create_grid_list.
      pose proof (seed_list_draws rnd coords np_zeros n NoDup_coords) as H.
      rewrite <- length_coords. lia.
    - intros [a b] Hq. unfold holds. cbn [fst snd].
      pose proof (Hc (a, b) Hq) as Hb. cbn [fst snd] in Hb.
      rewrite Hb, Hcell by done. cbn [andb]. apply seed_state_alive. }
  split; [done|]. split; [done|].
  pose proof (List.filter_length_le (holds (create_grid rnd n).1 ALIVE) coords) as Hle.
  rewrite <- length_coords in *. lia.
Qed.

Lemma create_grid_cells_witness :
  grid_get (create_grid draws_high 0%nat).1 5 5 =
  seed_state draws_high (seed_index draws_high coords 0%nat (5, 5)).
Proof.
  destruct (create_grid_cells draws_high 0%nat) as (Hcell & _ & _).
  apply Hcell. reflexivity.
Defined.

(** ** Drawing *)

Lemma fold_left_snoc {A B : Type} (f : A -> B) (l : list A) (s : list B) :
  fold_left (fun s a => s ++ [f a]) l s = s ++ map f l.
Proof.
  revert s. induction l as [|a l IH]; intros s; cbn [fold_left map].
  - by rewrite app_nil_r.
  - rewrite IH, <- app_assoc. done.
Qed.

Lemma draw_grid_calls screen g cs :
  draw_grid screen g cs =
  screen ++ map (fun q : Z * Z =>
                   ((if grid_get g q.1 q.2 =? ALIVE then ALIVE_COLOR
                     else if grid_get g q.1 q.2 =? RESOURCE then RESOURCE_COLOR
                     else DEAD_COLOR),
                    mkRect (q.2 * cs) (q.1 * cs) cs cs)) coords.
Proof.
  unfold draw_grid. rewrite for_each_nested. fold coords.
  unfold draw_cell. apply fold_left_snoc.
Qed.

Lemma rect_covers_cell (cs x y px py : Z) :
  0 < cs ->
  rect_covers (mkRect (y * cs) (x * cs) cs cs) px py = true <->
  y = px / cs /\ x = py / cs.
Proof.
  intros Hcs. unfold rect_covers. cbn [r_left r_top r_width r_height].
  rewrite !andb_true_iff, !Z.leb_le, !Z.ltb_lt. split.
  - intros [[[H1 H2] H3] H4]. split.
    + apply (Z.div_unique px cs y (px - y * cs)); lia.
    + apply (Z.div_unique py cs x (py - x * cs)); lia.
  - intros [-> ->].
    pose proof (Z.div_mod px cs ltac:(lia)). pose proof (Z.mod_pos_bound px cs Hcs).
    pose proof (Z.div_mod py cs ltac:(lia)). pose proof (Z.mod_pos_bound py cs Hcs).
    lia.
Qed.

Lemma filter_map_none {A B : Type} (f : A -> B) (P : B -> bool) (l : list A) :
  (forall a, In a l -> P (f a) = false) -> List.filter P (map f l) = [].
Proof.
  intros H. induction l as [|b l IH]; [done|]. cbn [map List.filter].
  rewrite (H b) by (by left). apply IH. intros; apply H; by right.
Qed.

Lemma filter_map_only {A B : Type} `{EqDecision A}
    (f : A -> B) (P : B -> bool) (l : list A) a0 :
  NoDup l -> In a0 l -> P (f a0) = true ->
  (forall a, In a l -> a <> a0 -> P (f a) = false) ->
  List.filter P (map f l) = [f a0].
Proof.
  intros Hnd Hin Hp Hothers. induction l as [|a l IH]; [done|].
  apply NoDup_cons in Hnd as [Hnin Hnd]. rewrite list_elem_of_In in Hnin.
  cbn [map List.filter].
  destruct (decide (a = a0)) as [->|Hne].
  - rewrite Hp. f_equal. apply filter_map_none. intros b Hb.
    apply Hothers; [by right|]. intros ->. done.
  - rewrite (Hothers a) by (done || by left).
    destruct Hin as [|Hin]; [done|]. apply IH; [done..|].
    intros b Hb. apply Hothers. by right.
Qed.

(** X12.  [draw_grid] adds one rectangle per cell to what was drawn before,
    and these tile the square of side [GRID_SIZE * cell_size] without overlap:
    each pixel of it lies in one rectangle only, that of the cell whose row
    is [py // cell_size] and whose column is [px // cell_size], drawn white
    for ALIVE, green for RESOURCE and black for anything else.  With the cell
    size of [main] the square is the whole window. *)
Theorem draw_grid_tiles (screen : list draw_call) (g : grid) (cell_size px py : Z) :
  0 < cell_size ->
  0 <= px < GRID_SIZE * cell_size -> 0 <= py < GRID_SIZE * cell_size ->
  draw_grid screen g cell_size = screen ++ draw_grid [] g cell_size
  /\ Z.of_nat (length (draw_grid [] g cell_size)) = GRID_SIZE * GRID_SIZE
  /\ List.filter (fun call : draw_call => rect_covers call.2 px py)
       (draw_grid [] g cell_size) =
     [((if grid_get g (py / cell_size) (px / cell_size) =? ALIVE then ALIVE_COLOR
        else if grid_get g (py / cell_size) (px / cell_size) =? RESOURCE
             then RESOURCE_COLOR
             else DEAD_COLOR),
       mkRect (px / cell_size * cell_size) (py / cell_size * cell_size)
              cell_size cell_size)]
  /\ in_bounds (py / cell_size) (px / cell_size) = true
  /\ GRID_SIZE * INITIAL_CELL_SIZE = WIDTH
  /\ GRID_SIZE * INITIAL_CELL_SIZE = HEIGHT.
Proof.
  intros Hcs Hpx Hpy.
  assert (Hb : in_bounds (py / cell_size) (px / cell_size) = true).
  { apply in_bounds_spec. split; split;
      try (apply Z.div_pos; lia); apply Z.div_lt_upper_bound; lia. }
  split; [by rewrite !draw_grid_calls|].
  split; [rewrite draw_grid_calls; cbn [app]; rewrite length_map; apply length_coords|].
  split; [|done].
  rewrite draw_grid_calls. cbn [app].
  rewrite (filter_map_only _ _ coords (py / cell_size, px / cell_size)).
  - done.
  - apply NoDup_coords.
  - by apply in_coords.
  - cbn [fst snd]. by apply rect_covers_cell.
  - intros [a b] _ Hne. cbn [fst snd]. apply not_true_is_false. intros Hcov.
    apply rect_covers_cell in Hcov as [-> ->]; done.
Qed.

Lemma draw_grid_tiles_witness :
  List.filter (fun call : draw_call => rect_covers call.2 40 36)
    (draw_grid [] G_move INITIAL_CELL_SIZE) =
  [((if grid_get G_move (36 / INITIAL_CELL_SIZE) (40 / INITIAL_CELL_SIZE) =? ALIVE
     then ALIVE_COLOR
     else if grid_get G_move (36 / INITIAL_CELL_SIZE) (40 / INITIAL_CELL_SIZE)
               =? RESOURCE
          then RESOURCE_COLOR
          else DEAD_COLOR),
    mkRect (40 / INITIAL_CELL_SIZE * INITIAL_CELL_SIZE)
           (36 / INITIAL_CELL_SIZE * INITIAL_CELL_SIZE)
           INITIAL_CELL_SIZE INITIAL_CELL_SIZE)].
Proof.
  destruct (draw_grid_tiles [] G_move INITIAL_CELL_SIZE 40 36) as (_ & _ & H & _).
  - reflexivity.
  - vm_compute. split; [discriminate|reflexivity].
  - vm_compute. split; [discriminate|reflexivity].
  - exact H.
Defined.

(** ** The main loop *)

Lemma shape_ok_update_grid rnd g n : shape_ok g -> shape_ok (update_grid rnd g n).1.
Proof.
  intros Hs. unfold update_grid. rewrite spawn_new_resources_list.
  by apply shape_ok_spawn_list, shape_ok_update_cells.
Qed.

Lemma cells_valid_update_grid rnd g n :
  cells_valid g -> cells_valid (update_grid rnd g n).1.
Proof.
  intros Hv. unfold update_grid. rewrite spawn_new_resources_list.
  by apply cells_valid_spawn_list, cells_valid_update_cells.
Qed.

Lemma main_loop_wellformed rnd events g n :
  shape_ok g -> cells_valid g ->
  Forall (fun g' : grid => shape_ok g' /\ cells_valid g') (main_loop rnd events g n).
Proof.
  revert g n. induction events as [|frame events IH]; intros g n Hs Hv; cbn [main_loop].
  - constructor.
  - pose proof (shape_ok_update_grid rnd g n Hs) as Hs'.
    pose proof (cells_valid_update_grid rnd g n Hv) as Hv'.
    destruct (update_grid rnd g n) as [g' n']. constructor; [done|].
    destruct (existsb _ frame); [constructor|]. by apply IH.
Qed.

Lemma main_loop_length rnd pre frame post g n :
  Forall (fun f => existsb (fun quit : bool => quit) f = false) pre ->
  existsb (fun quit : bool => quit) frame = true ->
  length (main_loop rnd (pre ++ frame :: post) g n) = S (length pre).
Proof.
  revert g n. induction pre as [|f pre IH]; intros g n Hpre Hq; cbn [app main_loop].
  - destruct (update_grid rnd g n). by rewrite Hq.
  - apply Forall_cons in Hpre as [Hf Hpre].
    destruct (update_grid rnd g n) as [g' n']. rewrite Hf. cbn [length].
    f_equal. by apply IH.
Qed.

(** X13.  Every grid [main] hands to [draw_grid] has the shape of the array
    and only DEAD, ALIVE and RESOURCE cells; the first one is the grid of
    [create_grid]; and when the first QUIT event arrives in a frame, that
    frame is the last drawn: as many frames are drawn as had passed without
    one, and one more. *)
Theorem main_frames (rnd : nat -> Q) (n : nat) (pre post : list (list bool))
    (frame : list bool) :
  Forall (fun f => existsb (fun quit : bool => quit) f = false) pre ->
  existsb (fun quit : bool => quit) frame = true ->
  Forall (fun g : grid => shape_ok g /\ cells_valid g)
         (main rnd (pre ++ frame :: post) n)
  /\ head (main rnd (pre ++ frame :: post) n) = Some (create_grid rnd n).1
  /\ length (main rnd (pre ++ frame :: post) n) = S (length pre).
Proof.
  intros Hpre Hq. unfold main.
  destruct (create_grid_wellformed rnd n) as [Hv Hs].
  destruct (create_grid rnd n) as [g n']. cbn [fst] in *.
  split; [by apply main_loop_wellformed|]. split.
  - destruct pre; cbn [app main_loop]; by destruct (update_grid rnd g n').
  - by apply main_loop_length.
Qed.

Lemma main_frames_witness :
  Forall (fun g : grid => shape_ok g /\ cells_valid g)
         (main draws_high ([[]; [false]] ++ [false; true] :: [[]]) 0%nat)
  /\ head (main draws_high ([[]; [false]] ++ [false; true] :: [[]]) 0%nat) =
     Some (create_grid draws_high 0%nat).1
  /\ length (main draws_high ([[]; [false]] ++ [false; true] :: [[]]) 0%nat) = 3%nat.
Proof.
  apply (main_frames draws_high 0%nat [[]; [false]] [[]] [false; true]).
  - repeat constructor.
  - reflexivity.
Defined.
